(** * webhdmi: device pairing, capture session and full-screen coupling

    A shallow embedding of [src/index.tsx].  The component [App] keeps its
    state in [useState]/[useRef] cells and talks to the browser through
    [navigator.mediaDevices], [document] and [window.screen].  The embedding
    has three layers:

    - the data the code manipulates ([MediaDeviceInfo], [DeviceGroup],
      [MediaStreamConstraints]) and the plain JavaScript object used as a
      string-keyed map in [initDevices];
    - the synchronous pieces of [initDevices], [startStream] and
      [handleFullscreenChange], written as functions on a machine state;
    - the event loop: every [await] is a suspension point, so an [async]
      function is cut at its awaits into a prefix and named continuations,
      and the browser delivers settlements and DOM events one at a time. *)

From Stdlib Require Import String Ascii List Bool NArith ZArith Arith Lia.
From Stdlib Require Import Permutation Sorted.
Import ListNotations.
Open Scope string_scope.
Open Scope list_scope.

Set Implicit Arguments.

(** ** JavaScript values used by the component *)

(** Truthiness of a string: only the empty string is falsy. *)
Definition truthy (s : string) : bool := negb (s =? "").

(** An [Error] object; only [message] is read by the code. *)
Record Error := mkError { message : string }.

(** The outcome of running a block that may throw. *)
Inductive Completion (A : Type) : Type :=
| Normal (a : A)
| Throw (e : Error).
Arguments Normal {A} a.
Arguments Throw {A} e.

(** [MediaDeviceKind] of the Media Capture API. *)
Inductive MediaDeviceKind := audioinput | audiooutput | videoinput.

Definition MediaDeviceKind_eqb (a b : MediaDeviceKind) : bool :=
  match a, b with
  | audioinput, audioinput | audiooutput, audiooutput
  | videoinput, videoinput => true
  | _, _ => false
  end.

Module MediaDeviceInfo.
Record t := mk {
  deviceId : string;
  kind : MediaDeviceKind;
  groupId : string;
  label : string
}.
End MediaDeviceInfo.

(** [interface DeviceGroup] (lines 4-9). *)
Module DeviceGroup.
Record t := mk {
  groupId : string;
  video : option MediaDeviceInfo.t;
  audio : option MediaDeviceInfo.t;
  label : string
}.
End DeviceGroup.

(** ** A plain object used as a map

    [groups] is created by the literal [{}], so it is an ordinary object
    whose prototype is [Object.prototype].  Three facts of the language
    matter to [initDevices]:

    - reading [groups[k]] finds an own property first and otherwise walks
      the prototype chain, where the names below are defined;
    - own properties are kept in creation order;
    - [Object.values] lists own properties whose key is an array index
      (a canonical decimal numeral below 2^32 - 1) first, in ascending
      numeric order, and the remaining string keys after them in creation
      order. *)
Module JSObject.

(** Property names every ordinary object inherits from
    [Object.prototype]. *)
Definition ObjectPrototype : list string :=
  [ "constructor"; "hasOwnProperty"; "isPrototypeOf";
    "propertyIsEnumerable"; "toLocaleString"; "toString"; "valueOf";
    "__proto__"; "__defineGetter__"; "__defineSetter__";
    "__lookupGetter__"; "__lookupSetter__" ].

Definition inherited (k : string) : bool :=
  existsb (String.eqb k) ObjectPrototype.

Definition digit (c : ascii) : option N :=
  let n := N_of_ascii c in
  if ((48 <=? n) && (n <=? 57))%N then Some (n - 48)%N else None.

Fixpoint digitsValue (acc : N) (s : string) : option N :=
  match s with
  | EmptyString => Some acc
  | String c s' =>
      match digit c with
      | Some d => digitsValue (10 * acc + d)%N s'
      | None => None
      end
  end.

(** [arrayIndex k] is [Some n] when [k] is the canonical numeral of an
    array index [n], that is [0 <= n < 2^32 - 1] and [k] has no leading
    zero. *)
Definition arrayIndex (k : string) : option N :=
  match k with
  | EmptyString => None
  | String c rest =>
      if (Ascii.eqb c "0"%char && negb (rest =? ""))%bool then None
      else match digitsValue 0 k with
           | Some n => if (n <=? 4294967294)%N then Some n else None
           | None => None
           end
  end.

Definition isArrayIndex (k : string) : bool :=
  match arrayIndex k with Some _ => true | None => false end.

Section Properties.
Variable V : Type.

(** Own properties in creation order. *)
Definition t := list (string * V).

Definition empty : t := [].

Fixpoint getOwn (o : t) (k : string) : option V :=
  match o with
  | [] => None
  | (k', v) :: o' => if k' =? k then Some v else getOwn o' k
  end.

(** The result of the expression [o[k]]. *)
Inductive Lookup :=
| Own (v : V)      (* an own property *)
| Inherited        (* a member of Object.prototype: truthy, not a V *)
| Undefined.

Definition get (o : t) (k : string) : Lookup :=
  match getOwn o k with
  | Some v => Own v
  | None => if inherited k then Inherited else Undefined
  end.

(** [o[k] = v] for a key that is not inherited: overwrite in place or
    create the property after the existing ones. *)
Fixpoint set (o : t) (k : string) (v : V) : t :=
  match o with
  | [] => [(k, v)]
  | (k', v') :: o' =>
      if k' =? k then (k', v) :: o' else (k', v') :: set o' k v
  end.

Fixpoint insertByIndex (n : N) (e : string * V)
         (l : list (N * (string * V))) : list (N * (string * V)) :=
  match l with
  | [] => [(n, e)]
  | (m, e') :: l' =>
      if (n <=? m)%N then (n, e) :: l
      else (m, e') :: insertByIndex n e l'
  end.

Definition sortByIndex (l : list (N * (string * V)))
  : list (N * (string * V)) :=
  fold_right (fun ne acc => insertByIndex (fst ne) (snd ne) acc) [] l.

Definition indexEntries (o : t) : list (N * (string * V)) :=
  flat_map (fun e => match arrayIndex (fst e) with
                     | Some n => [(n, e)]
                     | None => []
                     end) o.

Definition namedEntries (o : t) : list (string * V) :=
  filter (fun e => negb (isArrayIndex (fst e))) o.

(** [Object.entries(o)]: OrdinaryOwnPropertyKeys order. *)
Definition entries (o : t) : list (string * V) :=
  map snd (sortByIndex (indexEntries o)) ++ namedEntries o.

Definition keys (o : t) : list string := map fst (entries o).
Definition values (o : t) : list V := map snd (entries o).
End Properties.

Arguments empty {V}.
Arguments Inherited {V}.
Arguments Undefined {V}.
End JSObject.

(** ** Grouping of descriptors, [initDevices] lines 31-53 *)

(** The [TypeError] raised by [group.push(device)] when [group] is not an
    array. *)
Definition TypeError_push : Error :=
  mkError "group.push is not a function".

(** Lines 31-37.  [group] and [groups[device.groupId]] are the same array,
    so [group.push(device)] is an update of the property's value.  When
    [device.groupId] names a member of [Object.prototype] and no own
    property shadows it, [groups[device.groupId] || []] is that member (a
    truthy non-array), and [group.push] is not a function. *)
Fixpoint groupByGroupId (allDevices : list MediaDeviceInfo.t)
         (groups : JSObject.t (list MediaDeviceInfo.t))
  : Completion (JSObject.t (list MediaDeviceInfo.t)) :=
  match allDevices with
  | [] => Normal groups
  | device :: rest =>
      if negb (truthy (MediaDeviceInfo.groupId device)) then
        groupByGroupId rest groups
      else
        match JSObject.get groups (MediaDeviceInfo.groupId device) with
        | JSObject.Own group =>
            groupByGroupId rest
              (JSObject.set groups (MediaDeviceInfo.groupId device)
                            (group ++ [device]))
        | JSObject.Undefined =>
            groupByGroupId rest
              (JSObject.set groups (MediaDeviceInfo.groupId device)
                            ([] ++ [device]))
        | JSObject.Inherited => Throw TypeError_push
        end
  end.

Definition isKind (k : MediaDeviceKind) (d : MediaDeviceInfo.t) : bool :=
  MediaDeviceKind_eqb (MediaDeviceInfo.kind d) k.

Definition UnknownCaptureDevice : string := "Unknown Capture Device".

(** Lines 42-52: the body of the [forEach] callback; [None] when the
    [if (video && audio)] test fails. *)
Definition pairOf (group : list MediaDeviceInfo.t) : option DeviceGroup.t :=
  let video := find (isKind videoinput) group in
  let audio := find (isKind audioinput) group in
  match video, audio with
  | Some v, Some a =>
      Some (DeviceGroup.mk
              (MediaDeviceInfo.groupId v)
              (Some v)
              (Some a)
              (if truthy (MediaDeviceInfo.label v)
               then MediaDeviceInfo.label v
               else UnknownCaptureDevice))
  | _, _ => None
  end.

(** Lines 39-53: [Object.values(groups).forEach(...)] pushing onto
    [validGroups]. *)
Definition collectValid (groups : JSObject.t (list MediaDeviceInfo.t))
  : list DeviceGroup.t :=
  fold_left
    (fun validGroups group =>
       match pairOf group with
       | Some g => validGroups ++ [g]
       | None => validGroups
       end)
    (JSObject.values groups) [].

(** Lines 31-53 as a whole. *)
Definition groupDevices (allDevices : list MediaDeviceInfo.t)
  : Completion (list DeviceGroup.t) :=
  match groupByGroupId allDevices JSObject.empty with
  | Normal groups => Normal (collectValid groups)
  | Throw e => Throw e
  end.

(** ** Streams, constraints and the video element *)

(** A [MediaStreamTrack] object is identified by a number; whether it is
    running is kept in the browser's state, because every holder of the
    track sees the effect of [track.stop()]. *)
Definition MediaStreamTrack := nat.

Record MediaStream := mkStream { getTracks : list MediaStreamTrack }.

(** [{ exact: a }] and [{ ideal: a }]. *)
Inductive Constrain (A : Type) : Type :=
| exact (a : A)
| ideal (a : A).
Arguments exact {A} a.
Arguments ideal {A} a.

(** The dictionary [MediaTrackConstraints]; an absent member is [None]. *)
Module MediaTrackConstraints.
Record t := mk {
  deviceId : option (Constrain string);
  width : option (Constrain Z);
  height : option (Constrain Z);
  echoCancellation : option bool;
  noiseSuppression : option bool;
  autoGainControl : option bool
}.
End MediaTrackConstraints.

(** [boolean | MediaTrackConstraints]. *)
Inductive TrackRequest :=
| flag (b : bool)
| constrained (c : MediaTrackConstraints.t).

Module MediaStreamConstraints.
Record t := mk { video : TrackRequest; audio : TrackRequest }.
End MediaStreamConstraints.

(** The [<video id="tv">] element: the stream it plays and whether the
    element has a [requestFullscreen] method. *)
Record HTMLVideoElement := mkVideo {
  srcObject : option MediaStream;
  hasRequestFullscreen : bool
}.

(** ** State *)

(** The cells of [App]: four [useState] values and [videoRef.current]. *)
Module App.
Record t := mk {
  devices : list DeviceGroup.t;
  selectedGroupId : string;
  isStreaming : bool;
  error : option string;
  videoRef : option HTMLVideoElement
}.
End App.

(** What the component reads from the browser: [window.screen], whether
    [document.fullscreenElement] is non-null, and the tracks whose
    [readyState] is live. *)
Record Browser := mkBrowser {
  screen_width : Z;
  screen_height : Z;
  fullscreenElement : bool;
  live : list MediaStreamTrack
}.

(** Calls the component makes on the browser, in the order made. *)
Inductive Call :=
| enumerateDevices
| getUserMedia (c : MediaStreamConstraints.t)
| track_stop (t : MediaStreamTrack)
| setTimeout (ms : nat)
| requestFullscreen (navigationUI : string)
| exitFullscreen
| alert (msg : string)
| console_error (msg : string) (e : Error).

(** The rest of an [async] function after one of its awaits. *)
Inductive Continuation :=
| initDevices_enumerated      (* after line 21 *)
| initDevices_probed          (* after line 23 *)
| initDevices_reenumerated    (* after line 28 *)
| startStream_acquired        (* after line 89 *)
| fullscreen_requested        (* after line 98 *).

Definition Continuation_eqb (a b : Continuation) : bool :=
  match a, b with
  | initDevices_enumerated, initDevices_enumerated
  | initDevices_probed, initDevices_probed
  | initDevices_reenumerated, initDevices_reenumerated
  | startStream_acquired, startStream_acquired
  | fullscreen_requested, fullscreen_requested => true
  | _, _ => false
  end.

(** How a promise settles. *)
Inductive Settlement :=
| fulfilled_devices (l : list MediaDeviceInfo.t)
| fulfilled_stream (s : MediaStream)
| fulfilled_undefined
| rejected (e : Error).

Record Machine := mkMachine {
  app : App.t;
  browser : Browser;
  pending : list Continuation;   (* awaited promises, oldest first *)
  timers : nat;                  (* setTimeout callbacks not yet run *)
  calls : list Call
}.

(** *** Updates of single cells *)

Definition with_app (f : App.t -> App.t) (m : Machine) : Machine :=
  mkMachine (f (app m)) (browser m) (pending m) (timers m) (calls m).

Definition with_browser (f : Browser -> Browser) (m : Machine) : Machine :=
  mkMachine (app m) (f (browser m)) (pending m) (timers m) (calls m).

Definition setDevices (v : list DeviceGroup.t) : Machine -> Machine :=
  with_app (fun a =>
    App.mk v (App.selectedGroupId a) (App.isStreaming a) (App.error a)
           (App.videoRef a)).

Definition setSelectedGroupId (v : string) : Machine -> Machine :=
  with_app (fun a =>
    App.mk (App.devices a) v (App.isStreaming a) (App.error a)
           (App.videoRef a)).

Definition setIsStreaming (v : bool) : Machine -> Machine :=
  with_app (fun a =>
    App.mk (App.devices a) (App.selectedGroupId a) v (App.error a)
           (App.videoRef a)).

Definition setError (v : option string) : Machine -> Machine :=
  with_app (fun a =>
    App.mk (App.devices a) (App.selectedGroupId a) (App.isStreaming a) v
           (App.videoRef a)).

(** [videoRef.current.srcObject = v]; used under [if (videoRef.current)]. *)
Definition set_srcObject (v : option MediaStream) : Machine -> Machine :=
  with_app (fun a =>
    App.mk (App.devices a) (App.selectedGroupId a) (App.isStreaming a)
           (App.error a)
           (match App.videoRef a with
            | Some video => Some (mkVideo v (hasRequestFullscreen video))
            | None => None
            end)).

Definition set_fullscreenElement (v : bool) : Machine -> Machine :=
  with_browser (fun b =>
    mkBrowser (screen_width b) (screen_height b) v (live b)).

Definition set_live (v : list MediaStreamTrack) : Machine -> Machine :=
  with_browser (fun b =>
    mkBrowser (screen_width b) (screen_height b) (fullscreenElement b) v).

Definition call (c : Call) (m : Machine) : Machine :=
  mkMachine (app m) (browser m) (pending m) (timers m) (calls m ++ [c]).

(** Suspend at an [await]: the continuation waits for the promise. *)
Definition await (k : Continuation) (m : Machine) : Machine :=
  mkMachine (app m) (browser m) (pending m ++ [k]) (timers m) (calls m).

Definition add_timer (m : Machine) : Machine :=
  mkMachine (app m) (browser m) (pending m) (S (timers m)) (calls m).

(** [track.stop()]: the track is no longer live. *)
Definition stop (track : MediaStreamTrack) (m : Machine) : Machine :=
  call (track_stop track)
       (set_live (filter (fun t => negb (t =? track)%nat)
                         (live (browser m))) m).

(** [stream.getTracks().forEach((track) => track.stop())]. *)
Definition stopTracks (stream : MediaStream) (m : Machine) : Machine :=
  fold_left (fun m track => stop track m) (getTracks stream) m.

(** The stream bound to the sink, if any. *)
Definition currentStream (m : Machine) : option MediaStream :=
  match App.videoRef (app m) with
  | Some video => srcObject video
  | None => None
  end.

(** ** [initDevices], lines 19-65 *)

(** Lines 59-64: the [catch] block. *)
Definition initDevices_catch (e : Error) (m : Machine) : Machine :=
  setError
    (Some (String.append "Error: "
            (String.append (message e)
               ". Ensure HTTPS/localhost and grant permissions.")))
    m.

(** Lines 31-58, run once [allDevices] has its final value. *)
Definition initDevices_group (allDevices : list MediaDeviceInfo.t)
           (m : Machine) : Machine :=
  match groupDevices allDevices with
  | Normal validGroups =>
      let m := setDevices validGroups m in
      match validGroups with
      | g :: _ => setSelectedGroupId (DeviceGroup.groupId g) m
      | [] => m
      end
  | Throw e => initDevices_catch e m
  end.

(** [{ audio: true, video: true }], lines 23-26. *)
Definition probeConstraints : MediaStreamConstraints.t :=
  MediaStreamConstraints.mk (flag true) (flag true).

(** Line 21, up to the first [await]. *)
Definition initDevices (m : Machine) : Machine :=
  await initDevices_enumerated (call enumerateDevices m).

(** Line 22: [allDevices.some((d) => d.label)]. *)
Definition someLabel (allDevices : list MediaDeviceInfo.t) : bool :=
  existsb (fun d => truthy (MediaDeviceInfo.label d)) allDevices.

(** Lines 22-23 and, when no probe is needed, 31-58. *)
Definition after_enumerated (r : Settlement) (m : Machine)
  : option Machine :=
  match r with
  | fulfilled_devices allDevices =>
      if negb (someLabel allDevices) then
        Some (await initDevices_probed
                    (call (getUserMedia probeConstraints) m))
      else Some (initDevices_group allDevices m)
  | rejected e => Some (initDevices_catch e m)
  | _ => None
  end.

(** Lines 27-28. *)
Definition after_probed (r : Settlement) (m : Machine) : option Machine :=
  match r with
  | fulfilled_stream stream =>
      Some (await initDevices_reenumerated
                  (call enumerateDevices (stopTracks stream m)))
  | rejected e => Some (initDevices_catch e m)
  | _ => None
  end.

(** Lines 28 (the assignment) and 31-58. *)
Definition after_reenumerated (r : Settlement) (m : Machine)
  : option Machine :=
  match r with
  | fulfilled_devices allDevices => Some (initDevices_group allDevices m)
  | rejected e => Some (initDevices_catch e m)
  | _ => None
  end.

(** ** [startStream], lines 70-111 *)

(** Lines 74-86. *)
Definition constraintsOf (video audio : MediaDeviceInfo.t) (b : Browser)
  : MediaStreamConstraints.t :=
  MediaStreamConstraints.mk
    (constrained
       (MediaTrackConstraints.mk
          (Some (exact (MediaDeviceInfo.deviceId video)))
          (Some (ideal (screen_width b)))
          (Some (ideal (screen_height b)))
          None None None))
    (constrained
       (MediaTrackConstraints.mk
          (Some (exact (MediaDeviceInfo.deviceId audio)))
          None None
          (Some false) (Some false) (Some false))).

(** Line 71: [devices.find((d) => d.groupId === selectedGroupId)]. *)
Definition selectedGroup (a : App.t) : option DeviceGroup.t :=
  find (fun d => DeviceGroup.groupId d =? App.selectedGroupId a)
       (App.devices a).

(** Lines 70-89, up to the [await]. *)
Definition startStream (m : Machine) : Machine :=
  match selectedGroup (app m) with
  | Some group =>
      match DeviceGroup.video group, DeviceGroup.audio group with
      | Some video, Some audio =>
          await startStream_acquired
                (call (getUserMedia (constraintsOf video audio (browser m)))
                      m)
      | _, _ => m
      end
  | None => m
  end.

(** Lines 90-110: the rest of the [try] and its [catch]. *)
Definition after_acquired (r : Settlement) (m : Machine) : option Machine :=
  match r with
  | fulfilled_stream stream =>
      match App.videoRef (app m) with
      | Some _ =>
          Some (add_timer
                  (call (setTimeout 100)
                        (setIsStreaming true
                           (set_srcObject (Some stream) m))))
      | None => Some m
      end
  | rejected e =>
      Some (call (alert (String.append "Failed to start stream: "
                                       (message e))) m)
  | _ => None
  end.

(** Lines 95-101: the timer callback up to its [await]. *)
Definition fullscreenTimer (m : Machine) : Machine :=
  match App.videoRef (app m) with
  | Some video =>
      if hasRequestFullscreen video then
        await fullscreen_requested (call (requestFullscreen "hide") m)
      else m
  | None => m
  end.

(** Lines 102-104. *)
Definition after_fullscreen (r : Settlement) (m : Machine)
  : option Machine :=
  match r with
  | fulfilled_undefined => Some m
  | rejected e => Some (call (console_error "Fullscreen failed" e) m)
  | _ => None
  end.

(** ** [handleFullscreenChange], lines 113-125 *)
Definition handleFullscreenChange (m : Machine) : Machine :=
  if negb (fullscreenElement (browser m)) then
    let m := setIsStreaming false m in
    match App.videoRef (app m) with
    | Some video =>
        let m := match srcObject video with
                 | Some stream => stopTracks stream m
                 | None => m
                 end in
        set_srcObject None m
    | None => m
    end
  else m.

(** Line 173: [onPause]. *)
Definition onPause (m : Machine) : Machine := call exitFullscreen m.

(** ** The view, lines 134-178 *)

(** The selector and the start button are rendered when the component is
    not streaming and shows no error (lines 136-163). *)
Definition controlsRendered (a : App.t) : bool :=
  negb (App.isStreaming a) &&
  match App.error a with Some _ => false | None => true end.

(** Line 157: [disabled={devices.length === 0}]. *)
Definition startEnabled (a : App.t) : bool :=
  controlsRendered a &&
  negb (Nat.eqb (length (App.devices a)) 0).

(** Lines 148-152: the values of the [<option>] elements. *)
Definition optionValues (a : App.t) : list string :=
  map DeviceGroup.groupId (App.devices a).

(** ** The event loop

    The browser runs one handler at a time.  A promise awaited by the
    component may settle in any turn; a click needs the start button to be
    rendered and enabled; a change event carries the value of one of the
    rendered options; [fullscreenchange] may come at any time, with the
    new state of [document.fullscreenElement], whoever caused the change
    (the component's request, the user, the system). *)

Inductive Event :=
| settle (i : nat) (r : Settlement)   (* the i-th awaited promise settles *)
| timeout                             (* a setTimeout callback runs *)
| click_start                         (* click on #start-btn *)
| change_select (value : string)      (* change on #device-select *)
| fullscreenchange (element : bool)   (* the document enters or leaves
                                         full screen and says so *)
| pause.                              (* pause on #tv *)

Fixpoint removeNth {A : Type} (i : nat) (l : list A) : list A :=
  match i, l with
  | _, [] => []
  | O, _ :: l' => l'
  | S i', x :: l' => x :: removeNth i' l'
  end.

Definition take (i : nat) (m : Machine) : Machine :=
  mkMachine (app m) (browser m) (removeNth i (pending m)) (timers m)
            (calls m).

(** A fulfilled [getUserMedia] hands over running tracks. *)
Definition delivered (r : Settlement) (m : Machine) : Machine :=
  match r with
  | fulfilled_stream stream =>
      set_live (getTracks stream ++ live (browser m)) m
  | _ => m
  end.

Definition resume (k : Continuation) (r : Settlement) (m : Machine)
  : option Machine :=
  match k with
  | initDevices_enumerated => after_enumerated r m
  | initDevices_probed => after_probed r m
  | initDevices_reenumerated => after_reenumerated r m
  | startStream_acquired => after_acquired r m
  | fullscreen_requested => after_fullscreen r m
  end.

(** One turn of the event loop; [None] when the event cannot happen in
    this state. *)
Definition step (ev : Event) (m : Machine) : option Machine :=
  match ev with
  | settle i r =>
      match nth_error (pending m) i with
      | Some k => resume k r (delivered r (take i m))
      | None => None
      end
  | timeout =>
      match timers m with
      | S n =>
          Some (fullscreenTimer
                  (mkMachine (app m) (browser m) (pending m) n (calls m)))
      | O => None
      end
  | click_start =>
      if startEnabled (app m) then Some (startStream m) else None
  | change_select value =>
      if controlsRendered (app m) &&
         existsb (String.eqb value) (optionValues (app m))
      then Some (setSelectedGroupId value m) else None
  | fullscreenchange element =>
      Some (handleFullscreenChange (set_fullscreenElement element m))
  | pause => Some (onPause m)
  end.

Fixpoint run (evs : list Event) (m : Machine) : option Machine :=
  match evs with
  | [] => Some m
  | ev :: evs' =>
      match step ev m with
      | Some m' => run evs' m'
      | None => None
      end
  end.

(** The component after its first render: the video element is mounted
    and the effect of lines 18-68 has called [initDevices]. *)
Definition mounted (width height : Z) (fs : bool) : Machine :=
  initDevices
    (mkMachine
       (App.mk [] "" false None (Some (mkVideo None fs)))
       (mkBrowser width height false [])
       [] 0 []).

Inductive reachable : Machine -> Prop :=
| reachable_mounted width height fs : reachable (mounted width height fs)
| reachable_step ev m m' :
    reachable m -> step ev m = Some m' -> reachable m'.

(** ** The session as the specification names it *)

Inductive SessionState := Idle | Starting | Active.

Definition startsInFlight (m : Machine) : nat :=
  length (filter (Continuation_eqb startStream_acquired) (pending m)).

Definition sessionState (m : Machine) : SessionState :=
  if App.isStreaming (app m) then Active
  else if Nat.eqb (startsInFlight m) 0 then Idle
  else Starting.

Definition isGetUserMedia (c : Call) : bool :=
  match c with getUserMedia _ => true | _ => false end.

(** Number of stream acquisitions requested so far. *)
Definition acquisitions (m : Machine) : nat :=
  length (filter isGetUserMedia (calls m)).

Definition isLive (m : Machine) (t : MediaStreamTrack) : bool :=
  existsb (Nat.eqb t) (live (browser m)).

(** ** Vocabulary of the properties *)

Definition nonEmptyId (d : MediaDeviceInfo.t) : bool :=
  truthy (MediaDeviceInfo.groupId d).

(** The descriptors the loop of lines 32-37 files under key [k]. *)
Definition members (k : string) (allDevices : list MediaDeviceInfo.t)
  : list MediaDeviceInfo.t :=
  filter (fun d => nonEmptyId d && (MediaDeviceInfo.groupId d =? k))
         allDevices.

(** Some descriptor of kind [kd] carries group id [g]. *)
Definition hasInput (kd : MediaDeviceKind) (g : string)
           (allDevices : list MediaDeviceInfo.t) : bool :=
  existsb (fun d => isKind kd d && (MediaDeviceInfo.groupId d =? g))
          allDevices.

(** Group id [g] has both a video input and an audio input. *)
Definition paired (g : string) (allDevices : list MediaDeviceInfo.t)
  : bool :=
  hasInput videoinput g allDevices && hasInput audioinput g allDevices.

(** A [DeviceGroup] for [g] is among [validGroups]. *)
Definition producedFor (g : string) (validGroups : list DeviceGroup.t)
  : bool :=
  existsb (fun G => DeviceGroup.groupId G =? g) validGroups.

(** No descriptor's group id is the name of a member of
    [Object.prototype]. *)
Definition prototypeFree (allDevices : list MediaDeviceInfo.t) : bool :=
  forallb (fun d => negb (JSObject.inherited (MediaDeviceInfo.groupId d)))
          allDevices.

(** [x] occurs in [l], and [y] occurs somewhere after that occurrence. *)
Definition precedes {A : Type} (x y : A) (l : list A) : Prop :=
  exists l1 l2 l3, l = l1 ++ x :: l2 ++ y :: l3.

(** A descriptor of group [g1] is met before the first one of group
    [g2]. *)
Definition encounteredBefore (g1 g2 : string)
           (allDevices : list MediaDeviceInfo.t) : Prop :=
  exists l1 d l2,
    allDevices = l1 ++ d :: l2 /\
    MediaDeviceInfo.groupId d = g1 /\
    forall d', In d' l1 -> MediaDeviceInfo.groupId d' <> g2.

(** The label line 50 gives a group whose video descriptor is [v]. *)
Definition labelOf (v : MediaDeviceInfo.t) : string :=
  if MediaDeviceInfo.label v =? "" then "Unknown Capture Device"
  else MediaDeviceInfo.label v.

(** Sample descriptors. *)
Definition camera (g l : string) : MediaDeviceInfo.t :=
  MediaDeviceInfo.mk (String.append "cam-" g) videoinput g l.
Definition microphone (g l : string) : MediaDeviceInfo.t :=
  MediaDeviceInfo.mk (String.append "mic-" g) audioinput g l.

(** What property [k] holds after more descriptors [l] were filed, when
    it held [own] before. *)
Definition filed (own : option (list MediaDeviceInfo.t))
           (l : list MediaDeviceInfo.t) : option (list MediaDeviceInfo.t) :=
  match own, l with
  | Some group, _ => Some (group ++ l)
  | None, [] => None
  | None, _ :: _ => Some l
  end.

(** The list a [forEach] with a conditional [push] builds. *)
Definition pairsOf (groups : list (list MediaDeviceInfo.t))
  : list DeviceGroup.t :=
  flat_map (fun group => match pairOf group with
                         | Some g => [g]
                         | None => []
                         end) groups.

(** The stream bound to the sink in [before] is released in [after]: the
    sink has no stream and none of that stream's tracks is live. *)
Definition released (before after : Machine) : Prop :=
  currentStream after = None /\
  forall stream t,
    currentStream before = Some stream ->
    In t (getTracks stream) -> isLive after t = false.

(** Idle, nothing bound to the sink, no track running. *)
Definition quiescent (m : Machine) : Prop :=
  sessionState m = Idle /\ currentStream m = None /\ live (browser m) = [].

(** What the browser does with [document.exitFullscreen()]: when the
    document is in full screen it leaves it and dispatches
    [fullscreenchange]; otherwise the returned promise is rejected and no
    event follows. *)
Definition exitFullscreen_reaction (m : Machine) : option Event :=
  if fullscreenElement (browser m) then Some (fullscreenchange false)
  else None.

(** The message of line 109. *)
Definition startFailure (e : Error) : Call :=
  alert (String.append "Failed to start stream: " (message e)).

Definition isDiscovery (k : Continuation) : bool :=
  match k with
  | initDevices_enumerated | initDevices_probed
  | initDevices_reenumerated => true
  | _ => false
  end.

(** Number of suspended [initDevices] activations. *)
Definition discoveryInFlight (m : Machine) : nat :=
  length (filter isDiscovery (pending m)).

(** Both descriptors of a group are present. *)
Definition complete (G : DeviceGroup.t) : Prop :=
  exists v a, DeviceGroup.video G = Some v /\ DeviceGroup.audio G = Some a.

(** What holds of the component between two turns of the event loop. *)
Record wellFormed (m : Machine) : Prop := {
  wf_sink : App.videoRef (app m) <> None;
  wf_discovery : discoveryInFlight m <= 1;
  wf_undiscovered :
    discoveryInFlight m = 1 -> App.devices (app m) = [];
  wf_idle :
    App.devices (app m) = [] ->
    App.isStreaming (app m) = false /\ startsInFlight m = 0;
  wf_selection :
    App.devices (app m) <> [] ->
    In (App.selectedGroupId (app m)) (optionValues (app m));
  wf_complete : forall G, In G (App.devices (app m)) -> complete G
}.

(** The sink is never half bound: it holds a stream exactly when
    [isStreaming] is true. *)
Definition consistent (m : Machine) : Prop :=
  App.isStreaming (app m) = true <-> currentStream m <> None.

(** A camera with its built-in microphone. *)
Definition webcam : list MediaDeviceInfo.t :=
  [camera "usb" "HD Webcam"; microphone "usb" "Webcam Mic"].

(** Two clicks on the start button before the first acquisition settles;
    the first acquisition then succeeds and the second one fails. *)
Definition doubleStart : list Event :=
  [settle 0 (fulfilled_devices webcam); click_start; click_start;
   settle 0 (fulfilled_stream (mkStream [1; 2]));
   settle 0 (rejected (mkError "Device in use"))].

Definition afterDoubleStart : option Machine :=
  Eval vm_compute in run doubleStart (mounted 1920 1080 true).

(** Discovery, one start that succeeds with tracks 1 and 2, and the
    entry into full screen. *)
Definition watching : list Event :=
  [settle 0 (fulfilled_devices webcam); click_start;
   settle 0 (fulfilled_stream (mkStream [1; 2]));
   timeout; fullscreenchange true; settle 0 fulfilled_undefined].

(** The component showing the webcam in full screen. *)
Definition streaming : Machine :=
  Eval vm_compute in
    match run watching (mounted 1920 1080 true) with
    | Some m => m
    | None => mounted 1920 1080 true
    end.

(** [d] is the first descriptor of kind [kd] and group id [g] in the
    enumeration. *)
Definition firstOf (kd : MediaDeviceKind) (g : string)
           (d : MediaDeviceInfo.t) (allDevices : list MediaDeviceInfo.t)
  : Prop :=
  exists l1 l2,
    allDevices = l1 ++ d :: l2 /\
    MediaDeviceInfo.kind d = kd /\
    MediaDeviceInfo.groupId d = g /\
    forall d', In d' l1 ->
               ~ (MediaDeviceInfo.kind d' = kd /\
                  MediaDeviceInfo.groupId d' = g).

(** A descriptor the pairing looks at: a video or an audio input. *)
Definition isInput (d : MediaDeviceInfo.t) : bool :=
  isKind videoinput d || isKind audioinput d.

(** Both groups carry an array-index id, and the first one's index is not
    above the second one's. *)
Definition indexLe (G1 G2 : DeviceGroup.t) : Prop :=
  match JSObject.arrayIndex (DeviceGroup.groupId G1),
        JSObject.arrayIndex (DeviceGroup.groupId G2) with
  | Some a, Some b => (a <= b)%N
  | _, _ => False
  end.

(** The text line 62 builds from an error. *)
Definition discoveryMessage (e : Error) : string :=
  String.append "Error: "
    (String.append (message e)
       ". Ensure HTTPS/localhost and grant permissions.").

(** The listed groups are what some run of lines 31-53 returned, unless
    nothing is listed. *)
Definition fromDiscovery (m : Machine) : Prop :=
  App.devices (app m) = [] \/
  exists allDevices, groupDevices allDevices = Normal (App.devices (app m)).

(** The component once discovery has listed the webcam. *)
Definition listed : Machine :=
  Eval vm_compute in
    match step (settle 0 (fulfilled_devices webcam))
               (mounted 1920 1080 true) with
    | Some m => m
    | None => mounted 1920 1080 true
    end.

(** One whole session: a click on the start button, the acquisition of
    [stream], the timer, the entry into full screen, and the exit. *)
Definition session (m : Machine) (stream : MediaStream) : list Event :=
  [click_start;
   settle (length (pending m)) (fulfilled_stream stream);
   timeout;
   fullscreenchange true;
   settle (length (pending m)) fulfilled_undefined;
   fullscreenchange false].

(** Once an error is shown nothing is listed and discovery is over. *)
Definition failedForGood (m : Machine) : Prop :=
  App.error (app m) <> None ->
  App.devices (app m) = [] /\ discoveryInFlight m = 0.

(** The component after the first enumeration was rejected. *)
Definition failedDiscovery : Machine :=
  Eval vm_compute in
    match step (settle 0 (rejected (mkError "Permission denied")))
               (mounted 1920 1080 true) with
    | Some m => m
    | None => mounted 1920 1080 true
    end.

Definition isSetTimeout (c : Call) : bool :=
  match c with setTimeout _ => true | _ => false end.

Definition isRequestFullscreen (c : Call) : bool :=
  match c with requestFullscreen _ => true | _ => false end.

(** Number of timers scheduled so far (line 95). *)
Definition scheduled (m : Machine) : nat :=
  length (filter isSetTimeout (calls m)).

(** Number of full-screen requests made so far (line 98). *)
Definition fullscreenRequests (m : Machine) : nat :=
  length (filter isRequestFullscreen (calls m)).

(** Every full-screen request used up a timer, and every timer was
    scheduled by an acquisition that succeeded. *)
Definition accounted (m : Machine) : Prop :=
  fullscreenRequests m + timers m <= scheduled m /\
  scheduled m + startsInFlight m <= acquisitions m.

(** * Properties *)

Unset Implicit Arguments.

(** ** Plain objects *)

Section JSObjectFacts.
Variable V : Type.
Implicit Types (o : JSObject.t V) (k : string) (v : V).

Lemma getOwn_set o k v k' :
  JSObject.getOwn (JSObject.set o k v) k' =
  if k =? k' then Some v else JSObject.getOwn o k'.
Proof.
  induction o as [|[k0 v0] o IH]; simpl.
  - destruct (k =? k'); reflexivity.
  - destruct (k0 =? k) eqn:E0; simpl.
    + apply String.eqb_eq in E0; subst k0.
      destruct (k =? k'); reflexivity.
    + destruct (k0 =? k') eqn:E1.
      * apply String.eqb_eq in E1; subst k0.
        rewrite String.eqb_sym, E0. reflexivity.
      * exact IH.
Qed.

Lemma getOwn_In_key o k :
  JSObject.getOwn o k <> None <-> In k (map fst o).
Proof.
  induction o as [|[k0 v0] o IH]; simpl.
  - split; [congruence | tauto].
  - destruct (k0 =? k) eqn:E.
    + apply String.eqb_eq in E. split; [auto | congruence].
    + apply String.eqb_neq in E. rewrite IH. tauto.
Qed.

Lemma getOwn_In o k v :
  JSObject.getOwn o k = Some v -> In (k, v) o.
Proof.
  induction o as [|[k0 v0] o IH]; simpl; [congruence|].
  destruct (k0 =? k) eqn:E.
  - apply String.eqb_eq in E. intros [= ->]. left. congruence.
  - auto.
Qed.

Lemma In_getOwn o k v :
  NoDup (map fst o) -> In (k, v) o -> JSObject.getOwn o k = Some v.
Proof.
  induction o as [|[k0 v0] o IH]; simpl; [tauto|].
  intros ND [E | Hin].
  - injection E as -> ->. now rewrite String.eqb_refl.
  - inversion ND as [|? ? Hnot ND']; subst.
    destruct (k0 =? k) eqn:E.
    + apply String.eqb_eq in E; subst k0. exfalso. apply Hnot.
      change k with (fst (k, v)). now apply in_map.
    + auto.
Qed.

Lemma keys_set o k v :
  map fst (JSObject.set o k v) =
  match JSObject.getOwn o k with
  | Some _ => map fst o
  | None => map fst o ++ [k]
  end.
Proof.
  induction o as [|[k0 v0] o IH]; simpl; [reflexivity|].
  destruct (k0 =? k) eqn:E; simpl; [reflexivity|].
  rewrite IH. destruct (JSObject.getOwn o k); reflexivity.
Qed.

Lemma NoDup_set o k v :
  NoDup (map fst o) -> NoDup (map fst (JSObject.set o k v)).
Proof.
  intros ND. rewrite keys_set.
  destruct (JSObject.getOwn o k) eqn:E; [exact ND|].
  apply NoDup_app; [exact ND | repeat constructor; simpl; tauto |].
  intros x Hx [<- | []].
  apply getOwn_In_key in Hx. congruence.
Qed.

Lemma In_insertByIndex n e x (l : list (N * (string * V))) :
  In x (JSObject.insertByIndex n e l) <-> x = (n, e) \/ In x l.
Proof.
  induction l as [|[m e'] l IH]; simpl.
  - intuition congruence.
  - destruct (n <=? m)%N; simpl; [intuition congruence|].
    rewrite IH. intuition congruence.
Qed.

Lemma In_sortByIndex x (l : list (N * (string * V))) :
  In x (JSObject.sortByIndex l) <-> In x l.
Proof.
  induction l as [|[m e'] l IH]; simpl; [tauto|].
  rewrite In_insertByIndex, IH. intuition congruence.
Qed.

(** [Object.entries] lists exactly the own properties. *)
Lemma In_entries o (e : string * V) :
  In e (JSObject.entries o) <-> In e o.
Proof.
  unfold JSObject.entries, JSObject.namedEntries, JSObject.indexEntries.
  rewrite in_app_iff, in_map_iff, filter_In. split.
  - intros [[[n e'] [<- Hin]] | [Hin _]]; [|exact Hin].
    apply In_sortByIndex, in_flat_map in Hin.
    destruct Hin as [e0 [Hin0 He0]].
    destruct (JSObject.arrayIndex (fst e0)); simpl in He0; [|tauto].
    destruct He0 as [[= <- <-] | []]. exact Hin0.
  - intros Hin. unfold JSObject.isArrayIndex.
    destruct (JSObject.arrayIndex (fst e)) as [n|] eqn:E.
    + left. exists (n, e). split; [reflexivity|].
      apply In_sortByIndex, in_flat_map. exists e. split; [exact Hin|].
      rewrite E. now left.
    + right. split; [exact Hin | reflexivity].
Qed.

Lemma In_values o v :
  In v (JSObject.values o) <-> exists k, In (k, v) o.
Proof.
  unfold JSObject.values. rewrite in_map_iff. split.
  - intros [[k v'] [<- Hin]]. exists k. now apply In_entries.
  - intros [k Hin]. exists (k, v). split; [reflexivity|].
    now apply In_entries.
Qed.

(** Keys that are not array indices keep their creation order. *)
Lemma values_order o k1 v1 k2 v2 a b c :
  o = a ++ (k1, v1) :: b ++ (k2, v2) :: c ->
  JSObject.isArrayIndex k1 = false ->
  JSObject.isArrayIndex k2 = false ->
  precedes v1 v2 (JSObject.values o).
Proof.
  intros -> H1 H2.
  unfold precedes, JSObject.values, JSObject.entries,
    JSObject.namedEntries.
  rewrite filter_app. simpl. rewrite H1. simpl.
  rewrite filter_app. simpl. rewrite H2. simpl.
  rewrite !map_app. simpl. rewrite map_app. simpl.
  eexists (_ ++ _), _, _. rewrite <- app_assoc. reflexivity.
Qed.
Lemma insertByIndex_Permutation n e (l : list (N * (string * V))) :
  Permutation (JSObject.insertByIndex n e l) ((n, e) :: l).
Proof.
  induction l as [|[m e'] l IH]; simpl; [reflexivity|].
  destruct (n <=? m)%N; [reflexivity|].
  rewrite IH. apply perm_swap.
Qed.

Lemma sortByIndex_Permutation (l : list (N * (string * V))) :
  Permutation (JSObject.sortByIndex l) l.
Proof.
  induction l as [|[m e'] l IH]; simpl; [reflexivity|].
  rewrite insertByIndex_Permutation. now constructor.
Qed.

(** Array-index keys are listed in ascending numeric order. *)
Lemma sortByIndex_Sorted (l : list (N * (string * V))) :
  Sorted (fun a b => (fst a <= fst b)%N) (JSObject.sortByIndex l).
Proof.
  induction l as [|[n e] l IH]; simpl; [constructor|].
  induction IH as [|[m e'] s Hs IHs Hd]; simpl.
  - repeat constructor.
  - destruct (n <=? m)%N eqn:E.
    + apply N.leb_le in E. repeat constructor; assumption.
    + apply N.leb_gt in E. constructor; [exact IHs|].
      destruct s as [|[m' e''] s']; simpl.
      * constructor. simpl. lia.
      * destruct (n <=? m')%N; constructor; simpl.
        -- lia.
        -- now inversion Hd.
Qed.

Lemma entries_Permutation o : Permutation (JSObject.entries o) o.
Proof.
  unfold JSObject.entries. rewrite sortByIndex_Permutation.
  unfold JSObject.indexEntries, JSObject.namedEntries,
    JSObject.isArrayIndex.
  induction o as [|e o IH]; simpl; [reflexivity|].
  destruct (JSObject.arrayIndex (fst e)); simpl.
  - now constructor.
  - rewrite <- Permutation_middle. now constructor.
Qed.

Lemma NoDup_keys_entries o :
  NoDup (map fst o) -> NoDup (map fst (JSObject.entries o)).
Proof.
  apply Permutation_NoDup, Permutation_map, Permutation_sym,
    entries_Permutation.
Qed.
End JSObjectFacts.

(** The model of [Object.keys] on a few objects. *)
Example keys_creation_order :
  JSObject.keys [("usb-b", 1); ("usb-a", 2); ("hdmi", 3)] =
  ["usb-b"; "usb-a"; "hdmi"].
Proof. reflexivity. Qed.

Example keys_array_indices_first :
  JSObject.keys [("b", 1); ("10", 2); ("9", 3); ("01", 4); ("0", 5)] =
  ["0"; "9"; "10"; "b"; "01"].
Proof. reflexivity. Qed.

Example arrayIndex_bounds :
  JSObject.arrayIndex "4294967294" = Some 4294967294%N /\
  JSObject.arrayIndex "4294967295" = None /\
  JSObject.arrayIndex "1.5" = None /\
  JSObject.arrayIndex "" = None.
Proof. repeat split. Qed.

Example get_walks_the_prototype_chain :
  JSObject.get (@JSObject.empty nat) "toString" = JSObject.Inherited /\
  JSObject.get (@JSObject.empty nat) "usb" = JSObject.Undefined /\
  JSObject.get [("usb", 1)] "usb" = JSObject.Own 1.
Proof. repeat split. Qed.

(** ** Grouping *)

Section Grouping.
Local Abbreviation gid := MediaDeviceInfo.groupId.
Implicit Types (d : MediaDeviceInfo.t) (o : JSObject.t (list MediaDeviceInfo.t)).

Lemma members_cons k d l :
  members k (d :: l) =
  if nonEmptyId d && (gid d =? k) then d :: members k l else members k l.
Proof. reflexivity. Qed.

Lemma In_members k d l :
  In d (members k l) <-> In d l /\ gid d <> "" /\ gid d = k.
Proof.
  unfold members, nonEmptyId, truthy. rewrite filter_In, andb_true_iff,
    negb_true_iff, String.eqb_neq, String.eqb_eq. tauto.
Qed.

Lemma groupByGroupId_app l1 : forall l2 o,
  groupByGroupId (l1 ++ l2) o =
  match groupByGroupId l1 o with
  | Normal o1 => groupByGroupId l2 o1
  | Throw e => Throw e
  end.
Proof.
  induction l1 as [|d l1 IH]; intros l2 o; simpl; [reflexivity|].
  destruct (negb (truthy (gid d))); [apply IH|].
  destruct (JSObject.get o (gid d)); auto.
Qed.

(** The loop of lines 32-37 ends normally when no group id is inherited
    from [Object.prototype]; it then files every descriptor with a
    non-empty group id under that id, in order, and creates keys after
    the existing ones. *)
Lemma groupByGroupId_spec l : forall o,
  prototypeFree l = true ->
  NoDup (map fst o) ->
  exists o',
    groupByGroupId l o = Normal o' /\
    NoDup (map fst o') /\
    (forall k, JSObject.getOwn o' k =
               filed (JSObject.getOwn o k) (members k l)) /\
    (exists new, map fst o' = map fst o ++ new).
Proof.
  induction l as [|d l IH]; intros o PF ND.
  - exists o. repeat split; try assumption.
    + intros k. simpl. destruct (JSObject.getOwn o k); simpl;
        [now rewrite app_nil_r | reflexivity].
    + exists []. now rewrite app_nil_r.
  - simpl in PF. apply andb_true_iff in PF. destruct PF as [PFd PF].
    apply negb_true_iff in PFd.
    cbn [groupByGroupId]. unfold JSObject.get. rewrite PFd.
    destruct (truthy (gid d)) eqn:T; cbn [negb].
    + set (g' := match JSObject.getOwn o (gid d) with
                 | Some g => g | None => [] end).
      destruct (IH (JSObject.set o (gid d) (g' ++ [d])) PF
                   (NoDup_set _ _ _ _ ND))
        as [o' [Hrun [ND' [Hget [new Hkeys]]]]].
      exists o'. split; [|split; [exact ND'|split]].
      * revert Hrun. subst g'.
        destruct (JSObject.getOwn o (gid d)); intros Hrun; exact Hrun.
      * intros k. rewrite Hget, getOwn_set, members_cons.
        unfold nonEmptyId. rewrite T. cbn [andb].
        destruct (gid d =? k) eqn:E.
        -- apply String.eqb_eq in E. subst k g'.
           destruct (JSObject.getOwn o (gid d)); simpl;
             [now rewrite <- app_assoc | reflexivity].
        -- reflexivity.
      * rewrite keys_set in Hkeys.
        destruct (JSObject.getOwn o (gid d)).
        -- now exists new.
        -- exists ([gid d] ++ new). now rewrite app_assoc.
    + destruct (IH o PF ND) as [o' [Hrun [ND' [Hget Hkeys]]]].
      exists o'. repeat split; try assumption.
      intros k. rewrite Hget, members_cons. unfold nonEmptyId.
      now rewrite T.
Qed.

(** A normal end of the loop means no inherited name was hit. *)
Lemma groupByGroupId_Normal l : forall o o',
  groupByGroupId l o = Normal o' ->
  (forall k, In k (map fst o) -> JSObject.inherited k = false) ->
  prototypeFree l = true.
Proof.
  induction l as [|d l IH]; intros o o' Hrun Hkeys; [reflexivity|].
  cbn [groupByGroupId] in Hrun. simpl.
  destruct (truthy (gid d)) eqn:T; cbn [negb] in Hrun.
  - unfold JSObject.get in Hrun.
    destruct (JSObject.getOwn o (gid d)) as [g|] eqn:Eo.
    + rewrite (Hkeys (gid d)).
      * simpl. eapply IH; [exact Hrun|].
        intros k. rewrite keys_set, Eo. apply Hkeys.
      * apply getOwn_In_key. congruence.
    + destruct (JSObject.inherited (gid d)) eqn:Ei; [discriminate|].
      simpl. eapply IH; [exact Hrun|].
      intros k. rewrite keys_set, Eo, in_app_iff.
      intros [Hin | [<- | []]]; auto.
  - unfold truthy in T. apply negb_false_iff, String.eqb_eq in T.
    rewrite T. simpl. eapply IH; eassumption.
Qed.

(** The object built from an empty one: key [k] holds exactly the
    descriptors with group id [k], when there are any. *)
Lemma groups_built l :
  prototypeFree l = true ->
  exists o',
    groupByGroupId l JSObject.empty = Normal o' /\
    NoDup (map fst o') /\
    (forall k, JSObject.getOwn o' k = filed None (members k l)) /\
    (forall k v, In (k, v) o' <-> v = members k l /\ v <> []).
Proof.
  intros PF.
  destruct (groupByGroupId_spec l JSObject.empty PF (NoDup_nil _))
    as [o' [Hrun [ND [Hget _]]]].
  exists o'. repeat split; try assumption.
  - eapply In_getOwn in H; [|exact ND]. rewrite Hget in H. simpl in H.
    destruct (members k l); [discriminate | congruence].
  - eapply In_getOwn in H; [|exact ND]. rewrite Hget in H. simpl in H.
    destruct (members k l); [discriminate | congruence].
  - intros [-> Hne]. apply getOwn_In. rewrite Hget. simpl.
    destruct (members k l); [congruence | reflexivity].
Qed.

Lemma fold_push (groups : list (list MediaDeviceInfo.t)) : forall acc,
  fold_left
    (fun validGroups group =>
       match pairOf group with
       | Some g => validGroups ++ [g]
       | None => validGroups
       end) groups acc = acc ++ pairsOf groups.
Proof.
  induction groups as [|g groups IH]; intros acc; simpl.
  - now rewrite app_nil_r.
  - rewrite IH. destruct (pairOf g); simpl;
      [now rewrite <- app_assoc | reflexivity].
Qed.

Lemma collectValid_pairsOf o :
  collectValid o = pairsOf (JSObject.values o).
Proof. unfold collectValid. now rewrite fold_push. Qed.

Lemma In_pairsOf G groups :
  In G (pairsOf groups) <->
  exists group, In group groups /\ pairOf group = Some G.
Proof.
  unfold pairsOf. rewrite in_flat_map. split.
  - intros [group [Hin HG]]. exists group. split; [exact Hin|].
    destruct (pairOf group); simpl in HG; [|tauto].
    destruct HG as [-> | []]. reflexivity.
  - intros [group [Hin HG]]. exists group. split; [exact Hin|].
    rewrite HG. now left.
Qed.

Lemma pairsOf_app l1 l2 : pairsOf (l1 ++ l2) = pairsOf l1 ++ pairsOf l2.
Proof. unfold pairsOf. apply flat_map_app. Qed.

Lemma pairOf_Some group G :
  pairOf group = Some G ->
  exists v a,
    find (isKind videoinput) group = Some v /\
    find (isKind audioinput) group = Some a /\
    G = DeviceGroup.mk (gid v) (Some v) (Some a) (labelOf v).
Proof.
  unfold pairOf, labelOf, truthy, UnknownCaptureDevice.
  destruct (find (isKind videoinput) group) as [v|]; [|discriminate].
  destruct (find (isKind audioinput) group) as [a|]; [|discriminate].
  intros [= <-]. exists v, a. repeat split.
  destruct (MediaDeviceInfo.label v =? ""); reflexivity.
Qed.

Lemma hasInput_iff kd g l :
  hasInput kd g l = true <->
  exists d, In d l /\ MediaDeviceInfo.kind d = kd /\ gid d = g.
Proof.
  unfold hasInput, isKind. rewrite existsb_exists.
  split; intros [d [Hin H]]; exists d; split; try assumption.
  - apply andb_true_iff in H. destruct H as [Hk Hg].
    apply String.eqb_eq in Hg. split; [|exact Hg].
    destruct (MediaDeviceInfo.kind d), kd; simpl in Hk; congruence.
  - destruct H as [<- <-]. rewrite String.eqb_refl.
    destruct (MediaDeviceInfo.kind d); reflexivity.
Qed.

Lemma find_kind_members kd g l :
  g <> "" -> hasInput kd g l = true ->
  exists d, find (isKind kd) (members g l) = Some d.
Proof.
  intros Hg H. apply hasInput_iff in H. destruct H as [d [Hin [Hk Hd]]].
  destruct (find (isKind kd) (members g l)) as [d'|] eqn:F;
    [now exists d'|].
  assert (Hm : In d (members g l)) by (apply In_members; subst g; auto).
  apply (find_none _ _ F) in Hm. unfold isKind in Hm. rewrite Hk in Hm.
  destruct kd; discriminate.
Qed.

(** A paired, non-empty id yields a group carrying that id. *)
Lemma paired_pairOf g l :
  g <> "" -> paired g l = true ->
  exists G, pairOf (members g l) = Some G /\ DeviceGroup.groupId G = g.
Proof.
  intros Hg H. apply andb_true_iff in H. destruct H as [Hv Ha].
  destruct (find_kind_members _ g l Hg Hv) as [v Fv].
  destruct (find_kind_members _ g l Hg Ha) as [a Fa].
  unfold pairOf. rewrite Fv, Fa. eexists. split; [reflexivity|]. simpl.
  apply find_some in Fv. destruct Fv as [Hin _].
  apply In_members in Hin. tauto.
Qed.

(** Conversely a group built from the members of [k] shows that [k] is
    paired and non-empty. *)
Lemma pairOf_members k l G :
  pairOf (members k l) = Some G ->
  DeviceGroup.groupId G = k /\ k <> "" /\ paired k l = true /\
  exists v, DeviceGroup.video G = Some v /\
            DeviceGroup.label G = labelOf v.
Proof.
  intros H. apply pairOf_Some in H.
  destruct H as [v [a [Fv [Fa ->]]]]. simpl.
  apply find_some in Fv. destruct Fv as [Hv Kv].
  apply find_some in Fa. destruct Fa as [Ha Ka].
  apply In_members in Hv. apply In_members in Ha.
  destruct Hv as [Hv [Nv Gv]]. destruct Ha as [Ha [Na Ga]].
  repeat split; try congruence.
  - unfold paired. apply andb_true_iff. split; apply existsb_exists.
    + exists v. now rewrite Kv, Gv, String.eqb_refl.
    + exists a. now rewrite Ka, Ga, String.eqb_refl.
  - now exists v.
Qed.

(** What [groupDevices] returns, in terms of the descriptors. *)
Lemma groupDevices_spec l :
  prototypeFree l = true ->
  exists o' out,
    groupByGroupId l JSObject.empty = Normal o' /\
    groupDevices l = Normal out /\
    out = pairsOf (JSObject.values o') /\
    forall G, In G out <->
              exists k, k <> "" /\ pairOf (members k l) = Some G.
Proof.
  intros PF. destruct (groups_built l PF) as [o' [Hrun [ND [Hget Hin]]]].
  exists o', (pairsOf (JSObject.values o')).
  unfold groupDevices. rewrite Hrun, collectValid_pairsOf.
  repeat split; try reflexivity.
  - intros HG. apply In_pairsOf in HG. destruct HG as [grp [Hv HG]].
    apply In_values in Hv. destruct Hv as [k Hk].
    apply Hin in Hk. destruct Hk as [-> _]. exists k.
    split; [|exact HG]. now apply pairOf_members in HG.
  - intros [k [Hk HG]]. apply In_pairsOf. exists (members k l).
    split; [|exact HG]. apply In_values. exists k. apply Hin.
    split; [reflexivity|]. intros E. rewrite E in HG. discriminate.
Qed.

Lemma groupDevices_Normal l out :
  groupDevices l = Normal out -> prototypeFree l = true.
Proof.
  unfold groupDevices.
  destruct (groupByGroupId l JSObject.empty) as [o'|] eqn:E;
    [|discriminate].
  intros _. eapply groupByGroupId_Normal; [exact E|].
  simpl. tauto.
Qed.

Lemma groupByGroupId_skips l : forall o,
  groupByGroupId l o = groupByGroupId (filter nonEmptyId l) o.
Proof.
  induction l as [|d l IH]; intros o; [reflexivity|].
  cbn [groupByGroupId filter]. unfold nonEmptyId at 1.
  destruct (truthy (gid d)) eqn:T; cbn [negb]; [|apply IH].
  cbn [groupByGroupId]. rewrite T. cbn [negb].
  destruct (JSObject.get o (gid d)); auto.
Qed.

Lemma prototypeFree_app l1 l2 :
  prototypeFree (l1 ++ l2) = prototypeFree l1 && prototypeFree l2.
Proof. apply forallb_app. Qed.

Lemma members_nil k l :
  (forall d, In d l -> gid d <> k) -> members k l = [].
Proof.
  intros H. induction l as [|d l IH]; [reflexivity|].
  rewrite members_cons.
  destruct (gid d =? k) eqn:E.
  - apply String.eqb_eq in E. exfalso. apply (H d); simpl; auto.
  - rewrite andb_false_r. apply IH. intros d' Hd'. apply H. now right.
Qed.

Lemma members_nonempty k l d :
  In d l -> gid d = k -> k <> "" -> members k l <> [].
Proof.
  intros Hin Hk Hne E.
  assert (Hm : In d (members k l)) by (apply In_members; subst k; auto).
  rewrite E in Hm. exact Hm.
Qed.

Lemma filed_None_key o k l :
  JSObject.getOwn o k = filed None l -> l <> [] -> In k (map fst o).
Proof.
  intros H Hl. apply getOwn_In_key. rewrite H.
  destruct l; simpl; congruence.
Qed.

(** Keys are created in the order in which group ids are first met. *)
Lemma keys_encounter l g1 g2 :
  prototypeFree l = true ->
  g1 <> "" -> g2 <> "" -> g1 <> g2 ->
  encounteredBefore g1 g2 l ->
  (exists d, In d l /\ gid d = g2) ->
  exists o',
    groupByGroupId l JSObject.empty = Normal o' /\
    precedes g1 g2 (map fst o').
Proof.
  intros PF N1 N2 Hne [l1 [d [l2 [-> [Hd Hl1]]]]] [d2 [Hin2 Hd2]].
  change (l1 ++ d :: l2) with (l1 ++ [d] ++ l2) in *.
  rewrite app_assoc in *.
  rewrite prototypeFree_app in PF. apply andb_true_iff in PF.
  destruct PF as [PF1 PF2].
  destruct (groupByGroupId_spec (l1 ++ [d]) JSObject.empty PF1
                                (NoDup_nil _))
    as [o2 [Hrun2 [ND2 [Hget2 _]]]].
  destruct (groupByGroupId_spec l2 o2 PF2 ND2)
    as [o' [Hrun [ND [Hget [new Hkeys]]]]].
  exists o'. split.
  { rewrite groupByGroupId_app, Hrun2. exact Hrun. }
  assert (M2 : members g2 (l1 ++ [d]) = []).
  { apply members_nil. intros d' Hd'. apply in_app_iff in Hd'.
    destruct Hd' as [Hd' | [<- | []]]; [auto | congruence]. }
  assert (K1 : In g1 (map fst o2)).
  { apply (filed_None_key _ _ _ (Hget2 g1)).
    apply (@members_nonempty g1 (l1 ++ [d]) d); auto.
    apply in_app_iff. right. now left. }
  assert (K2 : JSObject.getOwn o2 g2 = None).
  { rewrite Hget2, M2. reflexivity. }
  assert (K3 : In g2 new).
  { assert (Hk : In g2 (map fst o')).
    { apply getOwn_In_key. rewrite Hget, K2.
      assert (Hm : members g2 l2 <> []).
      { apply (@members_nonempty g2 l2 d2); auto.
        apply in_app_iff in Hin2. destruct Hin2 as [Hin2 | Hin2]; auto.
        apply in_app_iff in Hin2.
        destruct Hin2 as [Hin2 | [<- | []]];
          [exfalso; eapply Hl1; eauto | congruence]. }
      destruct (members g2 l2); simpl; congruence. }
    rewrite Hkeys in Hk. apply in_app_iff in Hk.
    destruct Hk as [Hk | Hk]; [|exact Hk].
    apply getOwn_In_key in Hk. congruence. }
  apply in_split in K1. destruct K1 as [a [b K1]].
  apply in_split in K3. destruct K3 as [n1 [n2 K3]].
  exists a, (b ++ n1), n2.
  rewrite Hkeys, K1, K3, <- !app_assoc. reflexivity.
Qed.

Lemma precedes_keys_split (V : Type) (o : JSObject.t V) k1 k2 :
  precedes k1 k2 (map fst o) ->
  exists a v1 b v2 c, o = a ++ (k1, v1) :: b ++ (k2, v2) :: c.
Proof.
  intros [l1 [l2 [l3 H]]].
  apply map_eq_app in H. destruct H as [a [r [-> [_ H]]]].
  apply map_eq_cons in H. destruct H as [[k1' v1] [r' [-> [E1 H]]]].
  apply map_eq_app in H. destruct H as [b [r'' [-> [_ H]]]].
  apply map_eq_cons in H. destruct H as [[k2' v2] [c [-> [E2 _]]]].
  simpl in E1, E2. subst. now exists a, v1, b, v2, c.
Qed.

Lemma pairsOf_precedes group1 group2 G1 G2 groups :
  precedes group1 group2 groups ->
  pairOf group1 = Some G1 -> pairOf group2 = Some G2 ->
  precedes G1 G2 (pairsOf groups).
Proof.
  intros [l1 [l2 [l3 ->]]] H1 H2.
  exists (pairsOf l1), (pairsOf l2), (pairsOf l3).
  rewrite pairsOf_app. f_equal.
  change (group1 :: l2 ++ group2 :: l3)
    with ([group1] ++ l2 ++ [group2] ++ l3).
  rewrite !pairsOf_app. unfold pairsOf at 1 3. simpl.
  now rewrite H1, H2.
Qed.

Lemma precedes_map (A B : Type) (f : A -> B) x y l :
  precedes x y l -> precedes (f x) (f y) (map f l).
Proof.
  intros [l1 [l2 [l3 ->]]]. exists (map f l1), (map f l2), (map f l3).
  rewrite map_app. simpl. now rewrite map_app.
Qed.

(** Two paired groups whose ids are not array indices come out in the
    order in which they were first met. *)
Lemma groupDevices_order l g1 g2 :
  prototypeFree l = true ->
  g1 <> "" -> g2 <> "" ->
  JSObject.isArrayIndex g1 = false ->
  JSObject.isArrayIndex g2 = false ->
  paired g1 l = true -> paired g2 l = true ->
  g1 <> g2 ->
  encounteredBefore g1 g2 l ->
  exists out,
    groupDevices l = Normal out /\
    precedes g1 g2 (map DeviceGroup.groupId out).
Proof.
  intros PF N1 N2 A1 A2 P1 P2 Hne Henc.
  assert (Hex : exists d, In d l /\ gid d = g2).
  { apply andb_true_iff in P2. destruct P2 as [P2 _].
    apply hasInput_iff in P2. destruct P2 as [d [Hin [_ Hg]]].
    now exists d. }
  destruct (keys_encounter l g1 g2 PF N1 N2 Hne Henc Hex)
    as [o' [Hrun Hprec]].
  destruct (groups_built l PF) as [o'' [Hrun' [ND [Hget Hin]]]].
  rewrite Hrun in Hrun'. injection Hrun' as <-.
  apply precedes_keys_split in Hprec.
  destruct Hprec as [a [v1 [b [v2 [c Ho]]]]].
  assert (E1 : v1 = members g1 l).
  { apply (Hin g1 v1). rewrite Ho. apply in_app_iff. right. now left. }
  assert (E2 : v2 = members g2 l).
  { apply (Hin g2 v2). rewrite Ho. apply in_app_iff. right. right.
    apply in_app_iff. right. now left. }
  destruct (paired_pairOf g1 l N1 P1) as [G1 [HG1 I1]].
  destruct (paired_pairOf g2 l N2 P2) as [G2 [HG2 I2]].
  exists (pairsOf (JSObject.values o')). split.
  - unfold groupDevices. now rewrite Hrun, collectValid_pairsOf.
  - rewrite <- I1, <- I2. apply precedes_map.
    apply (pairsOf_precedes v1 v2); [|congruence|congruence].
    eapply values_order; eassumption.
Qed.
(** Each key yields at most one group, which carries the key as its
    id. *)
Lemma pairsOf_cons group groups :
  pairsOf (group :: groups) =
  match pairOf group with Some g => [g] | None => [] end ++ pairsOf groups.
Proof. reflexivity. Qed.

Lemma pairsOf_ids (es : list (string * list MediaDeviceInfo.t)) l :
  (forall k v, In (k, v) es -> v = members k l) ->
  NoDup (map fst es) ->
  NoDup (map DeviceGroup.groupId (pairsOf (map snd es))) /\
  forall g, In g (map DeviceGroup.groupId (pairsOf (map snd es))) ->
            In g (map fst es).
Proof.
  induction es as [|[k v] es IH]; intros Hm ND.
  - split; [constructor | simpl; tauto].
  - cbn [map fst snd] in *. inversion ND as [|? ? Hnot ND']; subst.
    destruct IH as [IH1 IH2]; [intros; apply Hm; now right | exact ND' |].
    rewrite pairsOf_cons.
    destruct (pairOf v) as [G|] eqn:P; cbn [List.app map].
    + rewrite (Hm k v (or_introl eq_refl)) in P.
      apply pairOf_members in P. destruct P as [-> _].
      split.
      * constructor; [|exact IH1]. intros H. apply Hnot. now apply IH2.
      * intros g [<- | H]; [now left | right; now apply IH2].
    + split; [exact IH1 | intros g H; right; now apply IH2].
Qed.

(** No two returned groups share a group id. *)
Lemma groupDevices_distinct l out :
  groupDevices l = Normal out ->
  NoDup (map DeviceGroup.groupId out).
Proof.
  intros Hrun. pose proof (groupDevices_Normal _ _ Hrun) as PF.
  destruct (groups_built l PF) as [o' [Hb [ND [_ Hin]]]].
  unfold groupDevices in Hrun. rewrite Hb, collectValid_pairsOf in Hrun.
  injection Hrun as <-. unfold JSObject.values.
  apply (pairsOf_ids (JSObject.entries o') l).
  - intros k v H. apply (proj1 (In_entries _ _ _)) in H.
    now apply Hin in H.
  - now apply NoDup_keys_entries.
Qed.
End Grouping.

(** ** Tracks *)

Section Tracks.
Implicit Types (m : Machine) (t : MediaStreamTrack).

Lemma stopTracks_frame stream m :
  app (stopTracks stream m) = app m /\
  pending (stopTracks stream m) = pending m /\
  timers (stopTracks stream m) = timers m /\
  fullscreenElement (browser (stopTracks stream m)) =
    fullscreenElement (browser m) /\
  screen_width (browser (stopTracks stream m)) =
    screen_width (browser m) /\
  screen_height (browser (stopTracks stream m)) =
    screen_height (browser m).
Proof.
  unfold stopTracks. revert m.
  induction (getTracks stream) as [|a l IH]; intros m; simpl.
  - repeat split.
  - destruct (IH (stop a m)) as (A & B & C & D & E & F).
    repeat split; assumption.
Qed.

(** Every track of the stream is stopped once, in order. *)
Lemma stopTracks_calls stream m :
  calls (stopTracks stream m) =
  calls m ++ map track_stop (getTracks stream).
Proof.
  unfold stopTracks. revert m.
  induction (getTracks stream) as [|a l IH]; intros m; simpl.
  - now rewrite app_nil_r.
  - rewrite IH. simpl. now rewrite <- app_assoc.
Qed.

Lemma stopTracks_live stream m t :
  In t (live (browser (stopTracks stream m))) <->
  In t (live (browser m)) /\ ~ In t (getTracks stream).
Proof.
  unfold stopTracks. revert m.
  induction (getTracks stream) as [|a l IH]; intros m; simpl.
  - tauto.
  - rewrite IH. simpl. rewrite filter_In, negb_true_iff, Nat.eqb_neq.
    intuition congruence.
Qed.

Lemma isLive_iff m t : isLive m t = true <-> In t (live (browser m)).
Proof.
  unfold isLive. rewrite existsb_exists. split.
  - intros [x [Hin E]]. apply Nat.eqb_eq in E. now subst.
  - intros Hin. exists t. split; [exact Hin | apply Nat.eqb_refl].
Qed.

Lemma stopTracks_stopped stream m t :
  In t (getTracks stream) -> isLive (stopTracks stream m) t = false.
Proof.
  intros Hin. apply not_true_is_false. intros H.
  apply isLive_iff, stopTracks_live in H. tauto.
Qed.

End Tracks.

(** ** Stopping *)

Section Stopping.
Implicit Types (m : Machine).

Lemma currentStream_unbound m :
  currentStream (set_srcObject None m) = None.
Proof.
  unfold currentStream. simpl. now destruct (App.videoRef (app m)).
Qed.

(** [handleFullscreenChange] with no element in full screen. *)
Lemma handleFullscreenChange_releases m :
  fullscreenElement (browser m) = false ->
  released m (handleFullscreenChange m) /\
  App.isStreaming (app (handleFullscreenChange m)) = false.
Proof.
  intros Hfs. unfold handleFullscreenChange, released.
  rewrite Hfs. cbn [negb]. cbv zeta.
  change (App.videoRef (app (setIsStreaming false m)))
    with (App.videoRef (app m)).
  unfold currentStream at 2.
  destruct (App.videoRef (app m)) as [video|] eqn:V.
  - split; [split|].
    + apply currentStream_unbound.
    + intros stream t Hs Hin. rewrite Hs.
      change (isLive (stopTracks stream (setIsStreaming false m)) t
              = false).
      now apply stopTracks_stopped.
    + destruct (srcObject video) as [stream|].
      * change (App.isStreaming
                  (app (stopTracks stream (setIsStreaming false m)))
                = false).
        now destruct (stopTracks_frame stream (setIsStreaming false m))
          as [-> _].
      * reflexivity.
  - split; [split|].
    + unfold currentStream. simpl. now rewrite V.
    + intros stream t [=].
    + reflexivity.
Qed.
End Stopping.

(** ** Invariants of the event loop *)

Section Invariants.
Implicit Types (m : Machine) (k : Continuation).

Lemma filter_removeNth (f : Continuation -> bool) l : forall i k,
  nth_error l i = Some k ->
  length (filter f l) =
  (if f k then 1 else 0) + length (filter f (removeNth i l)).
Proof.
  induction l as [|x l IH]; intros [|i] k H; simpl in H; try discriminate.
  - injection H as ->. simpl. destruct (f k); reflexivity.
  - pose proof (IH i k H) as E. simpl.
    destruct (f x), (f k); simpl in *; lia.
Qed.

Lemma filter_snoc (f : Continuation -> bool) l k :
  length (filter f (l ++ [k])) =
  length (filter f l) + (if f k then 1 else 0).
Proof.
  rewrite filter_app, length_app. simpl. now destruct (f k).
Qed.

Lemma groupDevices_complete l out G :
  groupDevices l = Normal out -> In G out ->
  complete G /\ DeviceGroup.groupId G <> "".
Proof.
  intros Hrun Hin. pose proof (groupDevices_Normal _ _ Hrun) as PF.
  destruct (groupDevices_spec l PF) as [o' [out' [_ [Hrun' [_ Hspec]]]]].
  rewrite Hrun in Hrun'. injection Hrun' as <-.
  apply Hspec in Hin. destruct Hin as [k [Hk HG]].
  split.
  - apply pairOf_Some in HG. destruct HG as [v [a [_ [_ ->]]]].
    now exists v, a.
  - apply pairOf_members in HG. destruct HG as [-> _]. exact Hk.
Qed.

(** [initDevices_group] touches the four state cells only. *)
Lemma initDevices_group_frame l m :
  pending (initDevices_group l m) = pending m /\
  browser (initDevices_group l m) = browser m /\
  calls (initDevices_group l m) = calls m /\
  timers (initDevices_group l m) = timers m /\
  App.videoRef (app (initDevices_group l m)) = App.videoRef (app m) /\
  App.isStreaming (app (initDevices_group l m)) =
    App.isStreaming (app m).
Proof.
  unfold initDevices_group. destruct (groupDevices l) as [[|g out]|e];
    repeat split.
Qed.

Lemma initDevices_group_devices l m :
  App.devices (app m) = [] ->
  (App.devices (app (initDevices_group l m)) = [] \/
   exists g out,
     groupDevices l = Normal (g :: out) /\
     App.devices (app (initDevices_group l m)) = g :: out /\
     App.selectedGroupId (app (initDevices_group l m)) =
       DeviceGroup.groupId g).
Proof.
  intros H. unfold initDevices_group.
  destruct (groupDevices l) as [[|g out]|e]; simpl; auto.
  right. now exists g, out.
Qed.

(** The end of discovery keeps the invariant. *)
Lemma initDevices_group_wf l m :
  App.videoRef (app m) <> None ->
  discoveryInFlight m = 0 ->
  App.devices (app m) = [] ->
  App.isStreaming (app m) = false -> startsInFlight m = 0 ->
  wellFormed (initDevices_group l m).
Proof.
  intros Hs Hd Hdev Hstr Hst.
  destruct (initDevices_group_frame l m) as (Fp & _ & _ & _ & Fv & Fs).
  unfold discoveryInFlight, startsInFlight in *.
  constructor; unfold discoveryInFlight, startsInFlight;
    rewrite ?Fp, ?Fv, ?Fs; try assumption; try lia; auto.
  - destruct (initDevices_group_devices l m Hdev)
      as [E | [g [out [_ [E Hsel]]]]]; [congruence|].
    intros _. unfold optionValues. rewrite E, Hsel. now left.
  - intros G HG.
    destruct (initDevices_group_devices l m Hdev)
      as [E | [g [out [Hrun [E _]]]]].
    + rewrite E in HG. destruct HG.
    + rewrite E in HG. now apply (groupDevices_complete _ _ _ Hrun).
Qed.

Lemma initDevices_catch_wf e m :
  App.videoRef (app m) <> None ->
  discoveryInFlight m = 0 ->
  App.devices (app m) = [] ->
  App.isStreaming (app m) = false -> startsInFlight m = 0 ->
  wellFormed (initDevices_catch e m).
Proof.
  intros Hs Hd Hdev Hstr Hst.
  constructor; unfold discoveryInFlight, startsInFlight in *; simpl;
    try assumption; try lia; auto; try congruence.
  intros G. rewrite Hdev. intros [].
Qed.

(** A turn that leaves the discovered groups and the selection alone. *)
Lemma wf_keep m m' :
  wellFormed m ->
  App.videoRef (app m') <> None ->
  App.devices (app m') = App.devices (app m) ->
  App.selectedGroupId (app m') = App.selectedGroupId (app m) ->
  discoveryInFlight m' <= discoveryInFlight m ->
  (App.devices (app m) = [] ->
   App.isStreaming (app m') = false /\ startsInFlight m' = 0) ->
  wellFormed m'.
Proof.
  intros [W1 W2 W3 W4 W5 W6] Hv Hd Hs HD Hidle.
  constructor; unfold optionValues in *; rewrite ?Hd, ?Hs; auto.
  - lia.
  - intros E. apply W3. lia.
Qed.

Lemma delivered_frame r m :
  app (delivered r m) = app m /\ pending (delivered r m) = pending m.
Proof. destruct r; split; reflexivity. Qed.

Lemma handleFullscreenChange_frame m :
  App.devices (app (handleFullscreenChange m)) = App.devices (app m) /\
  App.selectedGroupId (app (handleFullscreenChange m)) =
    App.selectedGroupId (app m) /\
  pending (handleFullscreenChange m) = pending m /\
  (App.videoRef (app m) <> None ->
   App.videoRef (app (handleFullscreenChange m)) <> None) /\
  (App.isStreaming (app m) = false ->
   App.isStreaming (app (handleFullscreenChange m)) = false).
Proof.
  unfold handleFullscreenChange.
  destruct (negb (fullscreenElement (browser m))); [|tauto].
  cbv zeta.
  change (App.videoRef (app (setIsStreaming false m)))
    with (App.videoRef (app m)).
  destruct (App.videoRef (app m)) as [video|] eqn:V; [|simpl; tauto].
  destruct (srcObject video) as [stream|].
  - destruct (stopTracks_frame stream (setIsStreaming false m))
      as (A & B & _).
    simpl. rewrite A, B. simpl. rewrite V. repeat split; congruence.
  - simpl. rewrite V. repeat split; congruence.
Qed.

Lemma startStream_frame m :
  App.devices (app (startStream m)) = App.devices (app m) /\
  App.selectedGroupId (app (startStream m)) =
    App.selectedGroupId (app m) /\
  App.videoRef (app (startStream m)) = App.videoRef (app m) /\
  App.isStreaming (app (startStream m)) = App.isStreaming (app m) /\
  discoveryInFlight (startStream m) = discoveryInFlight m /\
  (startStream m = m \/ App.devices (app m) <> []).
Proof.
  unfold startStream, selectedGroup.
  destruct (find _ (App.devices (app m))) as [G|] eqn:F;
    [|repeat split; auto].
  destruct (DeviceGroup.video G), (DeviceGroup.audio G);
    repeat split; auto.
  - unfold discoveryInFlight. simpl. rewrite filter_snoc. simpl. lia.
  - right. apply find_some in F. destruct F as [F _].
    intros E. rewrite E in F. exact F.
Qed.

Ltac counting :=
  unfold discoveryInFlight, startsInFlight in *; simpl;
  rewrite ?filter_snoc; simpl; try lia.

Theorem step_wf ev m m' :
  wellFormed m -> step ev m = Some m' -> wellFormed m'.
Proof.
  intros W Hstep. pose proof W as [W1 W2 W3 W4 W5 W6].
  destruct ev as [i r| | |value|element|]; simpl in Hstep.
  - (* settle *)
    destruct (nth_error (pending m) i) as [k|] eqn:N; [|discriminate].
    pose proof (filter_removeNth isDiscovery _ _ _ N) as CD.
    pose proof (filter_removeNth
                  (Continuation_eqb startStream_acquired) _ _ _ N) as CS.
    destruct (delivered_frame r (take i m)) as [Fa Fp].
    change (app (take i m)) with (app m) in Fa.
    change (pending (take i m)) with (removeNth i (pending m)) in Fp.
    remember (delivered r (take i m)) as m1 eqn:Hm1. clear Hm1.
    rewrite <- Fp in CD, CS.
    fold (discoveryInFlight m) (discoveryInFlight m1) in CD.
    fold (startsInFlight m) (startsInFlight m1) in CS.
    assert (Wd : isDiscovery k = true ->
               App.videoRef (app m1) <> None /\
               discoveryInFlight m1 = 0 /\
               App.devices (app m1) = [] /\
               App.isStreaming (app m1) = false /\
               startsInFlight m1 = 0).
    { intros Hk. rewrite Hk in CD. rewrite Fa.
      assert (HD : discoveryInFlight m = 1) by lia.
      destruct (W4 (W3 HD)) as [Hs Hn].
      assert (HS : Continuation_eqb startStream_acquired k = false)
        by (destruct k; simpl in Hk; try discriminate; reflexivity).
      rewrite HS in CS. repeat split; auto; lia. }
    destruct k; simpl in Hstep, CD, CS, Wd.
    + destruct (Wd eq_refl) as (A & B & C & D & E).
      destruct r; simpl in Hstep; try discriminate.
      * destruct (someLabel l); simpl in Hstep; injection Hstep as <-.
        -- now apply initDevices_group_wf.
        -- apply (wf_keep m); simpl; rewrite ?Fa; auto;
             [counting | intros _; split; [congruence | counting]].
      * injection Hstep as <-. now apply initDevices_catch_wf.
    + destruct (Wd eq_refl) as (A & B & C & D & E).
      destruct r; simpl in Hstep; try discriminate;
        injection Hstep as <-.
      * destruct (stopTracks_frame s m1) as (Ga & Gp & _).
        apply (wf_keep m); simpl; rewrite ?Ga, ?Fa; auto.
        -- unfold discoveryInFlight in *. simpl.
           rewrite Gp, filter_snoc. simpl. lia.
        -- intros _. split; [congruence|].
           unfold startsInFlight in *. simpl.
           rewrite Gp, filter_snoc. simpl. lia.
      * now apply initDevices_catch_wf.
    + destruct (Wd eq_refl) as (A & B & C & D & E).
      destruct r; simpl in Hstep; try discriminate;
        injection Hstep as <-.
      * now apply initDevices_group_wf.
      * now apply initDevices_catch_wf.
    + assert (Hdev : App.devices (app m) <> []).
      { intros E. destruct (W4 E) as [_ E']. lia. }
      destruct r; simpl in Hstep; try discriminate.
      * rewrite Fa in Hstep.
        destruct (App.videoRef (app m)) as [video|] eqn:V;
          [|congruence].
        injection Hstep as <-.
        apply (wf_keep m); simpl; rewrite ?Fa, ?V; auto;
          try congruence; counting.
      * injection Hstep as <-.
        apply (wf_keep m); simpl; rewrite ?Fa; auto;
          try congruence; counting.
    + assert (Hidle : App.devices (app m) = [] ->
              App.isStreaming (app m1) = false /\ startsInFlight m1 = 0).
      { intros E. destruct (W4 E). rewrite Fa. split; [auto|lia]. }
      destruct r; simpl in Hstep; try discriminate;
        injection Hstep as <-;
        apply (wf_keep m); simpl; rewrite ?Fa; auto; counting;
        intros E0; destruct (Hidle E0); split; congruence.
  - (* timeout *)
    destruct (timers m) as [|n]; [discriminate|].
    injection Hstep as <-. unfold fullscreenTimer. simpl.
    destruct (App.videoRef (app m)) as [video|] eqn:V; [|congruence].
    destruct (hasRequestFullscreen video).
    + apply (wf_keep m); simpl; rewrite ?V; auto; try congruence.
      * counting.
      * intros E. destruct (W4 E). split; [auto | counting].
    + apply (wf_keep m); simpl; rewrite ?V; auto; congruence.
  - (* click_start *)
    destruct (startEnabled (app m)); [|discriminate].
    injection Hstep as <-.
    destruct (startStream_frame m) as (A & B & C & D & E & F).
    destruct F as [F | F]; [now rewrite F|].
    apply (wf_keep m); auto; try congruence; try lia; tauto.
  - (* change_select *)
    destruct (controlsRendered (app m) &&
              existsb (String.eqb value) (optionValues (app m)))
      eqn:G; [|discriminate].
    injection Hstep as <-.
    apply andb_true_iff in G. destruct G as [_ G].
    apply existsb_exists in G. destruct G as [x [Hx Ex]].
    apply String.eqb_eq in Ex. subst x.
    constructor; simpl; auto.
  - (* fullscreenchange *)
    injection Hstep as <-.
    destruct (handleFullscreenChange_frame
                (set_fullscreenElement element m))
      as (A & B & C & D & E).
    simpl in A, B, C, D, E.
    apply (wf_keep m); auto.
    + unfold discoveryInFlight. rewrite C. simpl. lia.
    + intros Hd. destruct (W4 Hd). unfold startsInFlight.
      rewrite C. simpl. split; auto.
  - (* pause *)
    injection Hstep as <-. apply (wf_keep m); simpl; auto.
Qed.

Lemma mounted_wf width height fs : wellFormed (mounted width height fs).
Proof.
  constructor; simpl; auto; try congruence;
    try (unfold discoveryInFlight; simpl; lia); try (intros G []).
Qed.

(** Every state the component can be in is well formed. *)
Theorem reachable_wf m : reachable m -> wellFormed m.
Proof.
  induction 1 as [w h fs | ev m m' _ IH Hstep].
  - apply mounted_wf.
  - eapply step_wf; eassumption.
Qed.
Lemma consistent_same m m' :
  App.isStreaming (app m') = App.isStreaming (app m) ->
  App.videoRef (app m') = App.videoRef (app m) ->
  consistent m -> consistent m'.
Proof.
  unfold consistent, currentStream. intros -> ->. tauto.
Qed.

Lemma handleFullscreenChange_consistent m :
  consistent m -> consistent (handleFullscreenChange m).
Proof.
  intros C. unfold handleFullscreenChange.
  destruct (negb (fullscreenElement (browser m))) eqn:F; [|exact C].
  apply negb_true_iff in F.
  destruct (handleFullscreenChange_releases m F) as [[R _] S].
  unfold handleFullscreenChange in R, S. rewrite F in R, S.
  cbn [negb] in R, S. unfold consistent. rewrite R, S.
  split; [discriminate | congruence].
Qed.

Lemma fullscreenTimer_frame m : app (fullscreenTimer m) = app m.
Proof.
  unfold fullscreenTimer.
  destruct (App.videoRef (app m)) as [[src hrf]|]; [destruct hrf|];
    reflexivity.
Qed.

Lemma step_consistent ev m m' :
  App.videoRef (app m) <> None ->
  consistent m -> step ev m = Some m' -> consistent m'.
Proof.
  intros V C Hstep.
  destruct ev as [i r| | |value|element|]; simpl in Hstep.
  - destruct (nth_error (pending m) i) as [k|]; [|discriminate].
    destruct (delivered_frame r (take i m)) as [Fa _].
    change (app (take i m)) with (app m) in Fa.
    remember (delivered r (take i m)) as m1 eqn:Hm1. clear Hm1.
    assert (C1 : consistent m1)
      by (apply (consistent_same m); [now rewrite Fa .. | exact C]).
    assert (G : forall l, consistent (initDevices_group l m1)).
    { intros l. destruct (initDevices_group_frame l m1)
        as (_ & _ & _ & _ & Gv & Gs).
      now apply (consistent_same m1). }
    destruct k, r; simpl in Hstep; try discriminate.
    + destruct (someLabel l); simpl in Hstep; injection Hstep as <-.
      * apply G.
      * now apply (consistent_same m1).
    + injection Hstep as <-. now apply (consistent_same m1).
    + injection Hstep as <-.
      destruct (stopTracks_frame s m1) as (Ga & _).
      apply (consistent_same m1); simpl; now rewrite ?Ga.
    + injection Hstep as <-. now apply (consistent_same m1).
    + injection Hstep as <-. apply G.
    + injection Hstep as <-. now apply (consistent_same m1).
    + rewrite Fa in Hstep.
      destruct (App.videoRef (app m)) as [video|] eqn:E; [|congruence].
      injection Hstep as <-. unfold consistent, currentStream. simpl.
      rewrite Fa, E. split; [discriminate | reflexivity].
    + injection Hstep as <-. now apply (consistent_same m1).
    + injection Hstep as <-. exact C1.
    + injection Hstep as <-. now apply (consistent_same m1).
  - destruct (timers m) as [|n]; [discriminate|].
    injection Hstep as <-.
    apply (consistent_same m); [| |exact C];
      now rewrite fullscreenTimer_frame.
  - destruct (startEnabled (app m)); [|discriminate].
    injection Hstep as <-.
    destruct (startStream_frame m) as (_ & _ & Fv & Fs & _).
    now apply (consistent_same m).
  - destruct (controlsRendered (app m) && _); [|discriminate].
    injection Hstep as <-. now apply (consistent_same m).
  - injection Hstep as <-. apply handleFullscreenChange_consistent.
    now apply (consistent_same m).
  - injection Hstep as <-. now apply (consistent_same m).
Qed.

(** In every state the component can be in, the sink holds a stream
    exactly when [isStreaming] is true. *)
Theorem reachable_consistent m : reachable m -> consistent m.
Proof.
  induction 1 as [w h fs | ev m m' R IH Hstep].
  - unfold consistent, currentStream. simpl.
    split; [discriminate | congruence].
  - apply (step_consistent ev m); [|exact IH|exact Hstep].
    now destruct (reachable_wf m R).
Qed.
End Invariants.

(** ** Discovery: pairing, labels, order *)

Section Discovery.
Local Abbreviation gid := MediaDeviceInfo.groupId.

(** C2, as stated, fails on the empty group id: a camera and a
    microphone that share the group id [""] are paired according to the
    claim, yet line 33 skips both and no group is produced. *)
Lemma pairing_fails_on_empty_groupId :
  paired "" [camera "" "Cam"; microphone "" "Mic"] = true /\
  groupDevices [camera "" "Cam"; microphone "" "Mic"] = Normal [] /\
  producedFor "" [] = false.
Proof. repeat split. Qed.

(** A group id that names a member of [Object.prototype] makes line 36
    throw, so discovery ends in the [catch] block with no group at
    all. *)
Lemma grouping_throws_on_inherited_name :
  groupDevices
    [camera "usb" "Cam"; microphone "usb" "Mic";
     camera "constructor" "Cam"; microphone "constructor" "Mic"] =
  Throw TypeError_push.
Proof. reflexivity. Qed.

(** C2, amended: when no group id is the name of a member of
    [Object.prototype], grouping ends normally, and for every non-empty
    group id [g] a DeviceGroup with id [g] is produced if and only if
    the descriptors contain a video input and an audio input with group
    id [g]. *)
Theorem pairing_iff allDevices g :
  prototypeFree allDevices = true ->
  g <> "" ->
  exists validGroups,
    groupDevices allDevices = Normal validGroups /\
    producedFor g validGroups = paired g allDevices.
Proof.
  intros PF Hg.
  destruct (groupDevices_spec allDevices PF)
    as [o' [out [_ [Hrun [_ Hspec]]]]].
  exists out. split; [exact Hrun|].
  apply eq_true_iff_eq. unfold producedFor. rewrite existsb_exists.
  split.
  - intros [G [Hin E]]. apply String.eqb_eq in E.
    apply Hspec in Hin. destruct Hin as [k [_ HG]].
    apply pairOf_members in HG. destruct HG as [Hk [_ [HP _]]].
    congruence.
  - intros HP. destruct (paired_pairOf g allDevices Hg HP) as [G [HG E]].
    exists G. split; [|now apply String.eqb_eq].
    apply Hspec. now exists g.
Qed.

(** [pairing_iff] on a concrete input. *)
Lemma pairing_iff_witness :
  exists validGroups,
    groupDevices (webcam ++ [camera "hdmi" "Capture"]) =
      Normal validGroups /\
    producedFor "usb" validGroups =
      paired "usb" (webcam ++ [camera "hdmi" "Capture"]).
Proof.
  apply (pairing_iff (webcam ++ [camera "hdmi" "Capture"]) "usb").
  - reflexivity.
  - discriminate.
Defined.

(** C9: every produced group carries the first video input of its hardware
    group, and its label is that descriptor's label, or the literal
    "Unknown Capture Device" when that label is empty. *)
Theorem label_fallback allDevices validGroups G :
  groupDevices allDevices = Normal validGroups ->
  In G validGroups ->
  exists v,
    DeviceGroup.video G = Some v /\
    find (isKind videoinput)
         (members (DeviceGroup.groupId G) allDevices) = Some v /\
    (MediaDeviceInfo.label v = "" ->
     DeviceGroup.label G = "Unknown Capture Device") /\
    (MediaDeviceInfo.label v <> "" ->
     DeviceGroup.label G = MediaDeviceInfo.label v).
Proof.
  intros Hrun Hin. pose proof (groupDevices_Normal _ _ Hrun) as PF.
  destruct (groupDevices_spec allDevices PF)
    as [o' [out [_ [Hrun' [_ Hspec]]]]].
  rewrite Hrun in Hrun'. injection Hrun' as <-.
  apply Hspec in Hin. destruct Hin as [k [Hk HG]].
  pose proof (pairOf_members _ _ _ HG) as [Ek _].
  apply pairOf_Some in HG. destruct HG as [v [a [Fv [_ ->]]]].
  simpl in *. exists v. rewrite Ek. repeat split; try assumption.
  - intros E. unfold labelOf. now rewrite E.
  - intros E. unfold labelOf. apply String.eqb_neq in E. now rewrite E.
Qed.

(** [label_fallback] on a concrete input. *)
Lemma label_fallback_witness :
  exists v,
    DeviceGroup.video
      (DeviceGroup.mk "usb" (Some (camera "usb" ""))
         (Some (microphone "usb" "")) "Unknown Capture Device") =
      Some v /\
    find (isKind videoinput)
         (members "usb" [camera "usb" ""; microphone "usb" ""]) =
      Some v /\
    (MediaDeviceInfo.label v = "" ->
     "Unknown Capture Device" = "Unknown Capture Device") /\
    (MediaDeviceInfo.label v <> "" ->
     "Unknown Capture Device" = MediaDeviceInfo.label v).
Proof.
  apply (label_fallback
           [camera "usb" ""; microphone "usb" ""]
           [DeviceGroup.mk "usb" (Some (camera "usb" ""))
              (Some (microphone "usb" "")) "Unknown Capture Device"]).
  - reflexivity.
  - simpl. left. reflexivity.
Defined.

(** C10: descriptors with an empty group id take no part in grouping, and
    no produced group has the empty group id, whatever the descriptors
    are. *)
Theorem empty_groupId_skipped allDevices :
  groupDevices allDevices = groupDevices (filter nonEmptyId allDevices) /\
  forall validGroups,
    groupDevices allDevices = Normal validGroups ->
    producedFor "" validGroups = false.
Proof.
  split.
  - unfold groupDevices. now rewrite groupByGroupId_skips.
  - intros out Hrun. apply not_true_is_false. intros H.
    apply existsb_exists in H. destruct H as [G [Hin E]].
    apply String.eqb_eq in E.
    apply (groupDevices_complete _ _ _ Hrun) in Hin. tauto.
Qed.

(** [empty_groupId_skipped] on a concrete input. *)
Lemma empty_groupId_skipped_witness :
  groupDevices (camera "" "Cam" :: microphone "" "Mic" :: webcam) =
    groupDevices webcam /\
  producedFor ""
    [DeviceGroup.mk "usb" (Some (camera "usb" "HD Webcam"))
       (Some (microphone "usb" "Webcam Mic")) "HD Webcam"] = false.
Proof.
  destruct (empty_groupId_skipped
              (camera "" "Cam" :: microphone "" "Mic" :: webcam))
    as [H1 H2].
  split.
  - exact H1.
  - apply H2. reflexivity.
Defined.

(** C6, as stated, fails when a group id is an array index: group "b"
    is met before group "1", both have a camera and a microphone, yet
    [Object.values] lists the property "1" first, so the group "1" is
    returned first and becomes the initial selection. *)
Lemma encounter_order_fails_on_array_index :
  let allDevices :=
    [camera "b" "Cam B"; microphone "b" "Mic B";
     camera "1" "Cam 1"; microphone "1" "Mic 1"] in
  let m := initDevices_group allDevices (mounted 1920 1080 true) in
  encounteredBefore "b" "1" allDevices /\
  paired "b" allDevices = true /\ paired "1" allDevices = true /\
  map DeviceGroup.groupId (App.devices (app m)) = ["1"; "b"] /\
  ~ precedes "b" "1" (map DeviceGroup.groupId (App.devices (app m))) /\
  App.selectedGroupId (app m) = "1".
Proof.
  cbv zeta.
  split; [|split; [|split; [|split; [|split]]]]; try reflexivity.
  - exists [], (camera "b" "Cam B"),
      [microphone "b" "Mic B"; camera "1" "Cam 1"; microphone "1" "Mic 1"].
    repeat split. intros d' [].
  - intros [l1 [l2 [l3 H]]].
    change (["1"; "b"] = l1 ++ "b" :: l2 ++ "1" :: l3) in H.
    destruct l1 as [|x [|y l1]]; simpl in H; try discriminate.
    + injection H as _ H. destruct l2; discriminate.
    + injection H as _ _ H. destruct l1; discriminate.
Qed.

(** C6, amended: when no group id is the name of a member of
    [Object.prototype], two distinct paired groups whose non-empty ids
    are not array indices are returned in the order in which their ids
    are first met, each id once; discovery stores the returned list and
    selects the id of its first group. *)
Theorem encounter_order allDevices g1 g2 m :
  prototypeFree allDevices = true ->
  g1 <> "" -> g2 <> "" ->
  JSObject.isArrayIndex g1 = false ->
  JSObject.isArrayIndex g2 = false ->
  paired g1 allDevices = true -> paired g2 allDevices = true ->
  g1 <> g2 ->
  encounteredBefore g1 g2 allDevices ->
  exists first rest,
    groupDevices allDevices = Normal (first :: rest) /\
    precedes g1 g2 (map DeviceGroup.groupId (first :: rest)) /\
    NoDup (map DeviceGroup.groupId (first :: rest)) /\
    App.devices (app (initDevices_group allDevices m)) = first :: rest /\
    App.selectedGroupId (app (initDevices_group allDevices m)) =
      DeviceGroup.groupId first.
Proof.
  intros PF N1 N2 A1 A2 P1 P2 Hne Henc.
  destruct (groupDevices_order allDevices g1 g2 PF N1 N2 A1 A2 P1 P2
                               Hne Henc) as [out [Hrun Hprec]].
  pose proof (groupDevices_distinct _ _ Hrun) as ND.
  destruct out as [|first rest].
  - destruct Hprec as [l1 [l2 [l3 H]]]. destruct l1; discriminate.
  - exists first, rest. unfold initDevices_group. rewrite Hrun.
    repeat split; assumption.
Qed.

(** [encounter_order] on a concrete input. *)
Lemma encounter_order_witness :
  exists first rest,
    groupDevices (webcam ++ [microphone "hdmi" ""; camera "hdmi" ""]) =
      Normal (first :: rest) /\
    precedes "usb" "hdmi" (map DeviceGroup.groupId (first :: rest)) /\
    NoDup (map DeviceGroup.groupId (first :: rest)) /\
    App.devices
      (app (initDevices_group
              (webcam ++ [microphone "hdmi" ""; camera "hdmi" ""])
              (mounted 1920 1080 true))) = first :: rest /\
    App.selectedGroupId
      (app (initDevices_group
              (webcam ++ [microphone "hdmi" ""; camera "hdmi" ""])
              (mounted 1920 1080 true))) = DeviceGroup.groupId first.
Proof.
  apply (encounter_order
           (webcam ++ [microphone "hdmi" ""; camera "hdmi" ""])
           "usb" "hdmi" (mounted 1920 1080 true));
    try reflexivity; try discriminate.
  exists [], (camera "usb" "HD Webcam"),
    [microphone "usb" "Webcam Mic"; microphone "hdmi" "";
     camera "hdmi" ""].
  repeat split. intros d' [].
Defined.
End Discovery.

(** ** The capture session *)

Section Session.
Implicit Types (m : Machine).

Lemma run_reachable evs : forall m m',
  reachable m -> run evs m = Some m' -> reachable m'.
Proof.
  induction evs as [|ev evs IH]; intros m m' R H; simpl in H.
  - now injection H as <-.
  - destruct (step ev m) as [m1|] eqn:S1; [|discriminate].
    eapply IH; [|exact H]. eapply reachable_step; eassumption.
Qed.

Lemma selectedGroup_None m :
  (forall G, In G (App.devices (app m)) ->
             DeviceGroup.groupId G <> App.selectedGroupId (app m)) ->
  selectedGroup (app m) = None.
Proof.
  intros H. unfold selectedGroup.
  destruct (find _ (App.devices (app m))) as [G|] eqn:F; [|reflexivity].
  apply find_some in F. destruct F as [Hin E].
  apply String.eqb_eq in E. now apply H in Hin.
Qed.

(** C5: the request built by [startStream] for the selected group asks
    for exactly the group's video device with the screen's width and
    height as ideal values, and for exactly the group's audio device with
    echo cancellation, noise suppression and automatic gain control set
    to false. *)
Theorem startStream_constraints m group video audio :
  selectedGroup (app m) = Some group ->
  DeviceGroup.video group = Some video ->
  DeviceGroup.audio group = Some audio ->
  calls (startStream m) =
  calls m ++
  [getUserMedia
     (MediaStreamConstraints.mk
        (constrained
           (MediaTrackConstraints.mk
              (Some (exact (MediaDeviceInfo.deviceId video)))
              (Some (ideal (screen_width (browser m))))
              (Some (ideal (screen_height (browser m))))
              None None None))
        (constrained
           (MediaTrackConstraints.mk
              (Some (exact (MediaDeviceInfo.deviceId audio)))
              None None
              (Some false) (Some false) (Some false))))].
Proof.
  intros Hg Hv Ha. unfold startStream. now rewrite Hg, Hv, Ha.
Qed.

(** [startStream_constraints] on a concrete input. *)
Lemma startStream_constraints_witness :
  calls (startStream (initDevices_group webcam (mounted 1920 1080 true))) =
  calls (initDevices_group webcam (mounted 1920 1080 true)) ++
  [getUserMedia
     (MediaStreamConstraints.mk
        (constrained
           (MediaTrackConstraints.mk
              (Some (exact "cam-usb"))
              (Some (ideal 1920%Z)) (Some (ideal 1080%Z))
              None None None))
        (constrained
           (MediaTrackConstraints.mk
              (Some (exact "mic-usb"))
              None None
              (Some false) (Some false) (Some false))))].
Proof.
  apply (startStream_constraints
           (initDevices_group webcam (mounted 1920 1080 true))
           (DeviceGroup.mk "usb" (Some (camera "usb" "HD Webcam"))
              (Some (microphone "usb" "Webcam Mic")) "HD Webcam")
           (camera "usb" "HD Webcam")
           (microphone "usb" "Webcam Mic")); reflexivity.
Defined.

(** C7: when no discovered group carries the selected id (in particular
    when nothing was discovered), [startStream] does nothing at all: no
    acquisition is requested, the machine and with it the session state
    are unchanged; in every state the component can reach the session is
    then Idle and stays Idle. *)
Theorem startStream_unknown_selection m :
  (forall G, In G (App.devices (app m)) ->
             DeviceGroup.groupId G <> App.selectedGroupId (app m)) ->
  startStream m = m /\
  acquisitions (startStream m) = acquisitions m /\
  sessionState (startStream m) = sessionState m /\
  (reachable m -> sessionState (startStream m) = Idle).
Proof.
  intros H. pose proof (selectedGroup_None m H) as E.
  assert (Hm : startStream m = m) by (unfold startStream; now rewrite E).
  rewrite Hm. repeat split.
  intros R. apply reachable_wf in R. destruct R as [_ _ _ W4 W5 _].
  destruct (App.devices (app m)) as [|G0 l] eqn:D.
  - destruct (W4 eq_refl) as [Hs Hn]. unfold sessionState.
    now rewrite Hs, Hn.
  - exfalso. assert (Hne : G0 :: l <> []) by discriminate.
    apply W5 in Hne. unfold optionValues in Hne. rewrite D in Hne.
    apply in_map_iff in Hne. destruct Hne as [G [EG HG]].
    now apply (H G).
Qed.

(** [startStream_unknown_selection] on a concrete input. *)
Lemma startStream_unknown_selection_witness :
  startStream (mounted 1920 1080 true) = mounted 1920 1080 true /\
  acquisitions (startStream (mounted 1920 1080 true)) =
    acquisitions (mounted 1920 1080 true) /\
  sessionState (startStream (mounted 1920 1080 true)) =
    sessionState (mounted 1920 1080 true) /\
  (reachable (mounted 1920 1080 true) ->
   sessionState (startStream (mounted 1920 1080 true)) = Idle).
Proof.
  apply (startStream_unknown_selection (mounted 1920 1080 true)).
  simpl. intros G [].
Defined.

(** C1, as stated, fails: after one click on the start button the
    session is Starting, the button is still there, and a second click
    issues a second acquisition while the first is in flight. *)
Lemma second_start_not_rejected :
  exists m0 m1,
    run [settle 0 (fulfilled_devices webcam); click_start]
        (mounted 1920 1080 true) = Some m0 /\
    reachable m0 /\
    sessionState m0 = Starting /\
    acquisitions m0 = 1 /\
    step click_start m0 = Some m1 /\
    acquisitions m1 = 2 /\
    startsInFlight m1 = 2.
Proof.
  do 2 eexists. split; [reflexivity|]. split; [|repeat split].
  apply (run_reachable
           [settle 0 (fulfilled_devices webcam); click_start]
           (mounted 1920 1080 true));
    [apply reachable_mounted | reflexivity].
Qed.

(** C1, amended: [startStream] looks at the selection only, never at the
    session: whenever the selected id names a discovered group with both
    descriptors, an invocation issues one more acquisition and leaves one
    more start in flight, whatever the session state.  What keeps a user
    from starting twice is the view: a click on the start button is
    impossible while [isStreaming] is true, and runs [startStream]
    whenever [isStreaming] is false and no error is shown. *)
Theorem startStream_unguarded m group video audio :
  selectedGroup (app m) = Some group ->
  DeviceGroup.video group = Some video ->
  DeviceGroup.audio group = Some audio ->
  acquisitions (startStream m) = S (acquisitions m) /\
  startsInFlight (startStream m) = S (startsInFlight m) /\
  (App.isStreaming (app m) = true -> step click_start m = None) /\
  (App.isStreaming (app m) = false -> App.error (app m) = None ->
   step click_start m = Some (startStream m)).
Proof.
  intros Hg Hv Ha.
  assert (Hdev : negb (Nat.eqb (length (App.devices (app m))) 0) = true).
  { unfold selectedGroup in Hg.
    destruct (App.devices (app m)); [discriminate | reflexivity]. }
  split; [|split; [|split]].
  - unfold startStream. rewrite Hg, Hv, Ha. unfold acquisitions. simpl.
    rewrite filter_app, length_app. simpl. lia.
  - unfold startStream. rewrite Hg, Hv, Ha. unfold startsInFlight. simpl.
    rewrite filter_app, length_app. simpl. lia.
  - intros Hs. simpl. unfold startEnabled, controlsRendered.
    now rewrite Hs.
  - intros Hs He. simpl. unfold startEnabled, controlsRendered.
    now rewrite Hs, He, Hdev.
Qed.

(** [startStream_unguarded] on a concrete input. *)
Lemma startStream_unguarded_witness :
  let m := startStream (initDevices_group webcam (mounted 1920 1080 true))
  in
  acquisitions (startStream m) = S (acquisitions m) /\
  startsInFlight (startStream m) = S (startsInFlight m) /\
  (App.isStreaming (app m) = true -> step click_start m = None) /\
  (App.isStreaming (app m) = false -> App.error (app m) = None ->
   step click_start m = Some (startStream m)).
Proof.
  apply (startStream_unguarded
           (startStream
              (initDevices_group webcam (mounted 1920 1080 true)))
           (DeviceGroup.mk "usb" (Some (camera "usb" "HD Webcam"))
              (Some (microphone "usb" "Webcam Mic")) "HD Webcam")
           (camera "usb" "HD Webcam")
           (microphone "usb" "Webcam Mic")); reflexivity.
Defined.
End Session.

(** ** Failure and release *)

Section Release.
Implicit Types (m : Machine).

(** C3, as stated, fails: two clicks put two starts in flight; the first
    acquisition succeeds, the second one fails, and the failed start
    ends with the session Active, the first stream bound to the sink and
    its tracks running. *)
Lemma failed_start_not_idle :
  exists m,
    run doubleStart (mounted 1920 1080 true) = Some m /\
    reachable m /\
    sessionState m = Active /\
    currentStream m = Some (mkStream [1; 2]) /\
    live (browser m) = [1; 2] /\
    last (calls m) enumerateDevices =
      startFailure (mkError "Device in use").
Proof.
  assert (E : run doubleStart (mounted 1920 1080 true) = afterDoubleStart)
    by (vm_compute; reflexivity).
  rewrite E. unfold afterDoubleStart. eexists. split; [reflexivity|].
  split; [|repeat split].
  apply (run_reachable doubleStart (mounted 1920 1080 true));
    [apply reachable_mounted | exact E].
Qed.

(** C3, amended: a failed acquisition only raises the alert; the state
    cells, the sink and the tracks are what they were.  So in a state the
    component can reach, a start that is alone in flight while the
    session is not streaming and no track is running ends Idle with no
    sink binding and no running track.  A successful acquisition with the
    sink mounted binds the stream and sets [isStreaming] in the same
    turn, with the stream's tracks running. *)
Theorem failed_start_changes_nothing m i e :
  nth_error (pending m) i = Some startStream_acquired ->
  (exists m',
     step (settle i (rejected e)) m = Some m' /\
     app m' = app m /\ browser m' = browser m /\
     pending m' = removeNth i (pending m) /\
     calls m' = calls m ++ [startFailure e] /\
     (reachable m ->
      startsInFlight m = 1 ->
      App.isStreaming (app m) = false ->
      live (browser m) = [] ->
      quiescent m')) /\
  (forall stream,
     App.videoRef (app m) <> None ->
     exists m',
       step (settle i (fulfilled_stream stream)) m = Some m' /\
       currentStream m' = Some stream /\
       App.isStreaming (app m') = true /\
       forall t, In t (getTracks stream) -> isLive m' t = true).
Proof.
  intros N. split.
  - eexists. simpl. rewrite N. simpl. split; [reflexivity|].
    do 4 (split; [reflexivity|]).
    intros R H1 Hs Hl. repeat split.
    + unfold sessionState. simpl. rewrite Hs.
      pose proof (filter_removeNth
                    (Continuation_eqb startStream_acquired) _ _ _ N) as C.
      unfold startsInFlight in *. simpl in *.
      assert (E : length (filter (Continuation_eqb startStream_acquired)
                                 (removeNth i (pending m))) = 0) by lia.
      now rewrite E.
    + apply reachable_consistent in R. unfold consistent in R.
      change (currentStream m = None).
      destruct (currentStream m); [|reflexivity].
      assert (E : App.isStreaming (app m) = true)
        by (apply R; discriminate).
      congruence.
    + exact Hl.
  - intros stream V. simpl. rewrite N. simpl.
    destruct (App.videoRef (app m)) as [video|] eqn:Ev; [|congruence].
    eexists. split; [reflexivity|]. repeat split.
    + unfold currentStream. simpl. now rewrite Ev.
    + intros t Hin. apply isLive_iff. simpl. apply in_app_iff. now left.
Qed.

(** [failed_start_changes_nothing] on a concrete input. *)
Lemma failed_start_changes_nothing_witness :
  let m := startStream (initDevices_group webcam (mounted 1920 1080 true))
  in
  (exists m',
     step (settle 1 (rejected (mkError "Device in use"))) m = Some m' /\
     app m' = app m /\ browser m' = browser m /\
     pending m' = removeNth 1 (pending m) /\
     calls m' = calls m ++ [startFailure (mkError "Device in use")] /\
     (reachable m ->
      startsInFlight m = 1 ->
      App.isStreaming (app m) = false ->
      live (browser m) = [] ->
      quiescent m')) /\
  (forall stream,
     App.videoRef (app m) <> None ->
     exists m',
       step (settle 1 (fulfilled_stream stream)) m = Some m' /\
       currentStream m' = Some stream /\
       App.isStreaming (app m') = true /\
       forall t, In t (getTracks stream) -> isLive m' t = true).
Proof.
  apply (failed_start_changes_nothing
           (startStream
              (initDevices_group webcam (mounted 1920 1080 true)))
           1 (mkError "Device in use")).
  reflexivity.
Defined.

(** C4: every stop releases the sink.  The stop of this component is the
    full-screen exit notification: after it the sink has no stream, none
    of the tracks of the stream that was bound is running, and
    [isStreaming] is false.  A pause on the sink requests the exit of
    full screen; when the document is in full screen the browser answers
    with that notification, and the same holds after it. *)
Theorem every_stop_releases m :
  (exists m',
     step (fullscreenchange false) m = Some m' /\
     released m m' /\
     App.isStreaming (app m') = false) /\
  (exists m1,
     step pause m = Some m1 /\
     calls m1 = calls m ++ [exitFullscreen] /\
     app m1 = app m /\ browser m1 = browser m /\
     forall ev,
       exitFullscreen_reaction m1 = Some ev ->
       exists m2,
         step ev m1 = Some m2 /\
         released m m2 /\
         App.isStreaming (app m2) = false).
Proof.
  split.
  - eexists. split; [reflexivity|].
    destruct (handleFullscreenChange_releases
                (set_fullscreenElement false m) eq_refl) as [R S].
    split; [exact R | exact S].
  - eexists. split; [reflexivity|].
    split; [reflexivity|]. split; [reflexivity|].
    split; [reflexivity|].
    intros ev Hev. unfold exitFullscreen_reaction in Hev.
    destruct (fullscreenElement (browser (onPause m))); [|discriminate].
    injection Hev as <-. eexists. split; [reflexivity|].
    destruct (handleFullscreenChange_releases
                (set_fullscreenElement false (onPause m)) eq_refl)
      as [R S].
    split; [exact R | exact S].
Qed.
(** [every_stop_releases] on a concrete input. *)
Lemma every_stop_releases_witness :
  exists m2,
    step (fullscreenchange false) (onPause streaming) = Some m2 /\
    released streaming m2 /\
    App.isStreaming (app m2) = false.
Proof.
  destruct (every_stop_releases streaming)
    as [_ [m1 [S1 [_ [_ [_ H]]]]]].
  injection S1 as <-. apply H. reflexivity.
Defined.
End Release.

(** ** The permission probe *)

Section Probe.
Implicit Types (m : Machine).

Lemma someLabel_false l :
  (forall d, In d l -> MediaDeviceInfo.label d = "") ->
  someLabel l = false.
Proof.
  intros H. apply not_true_is_false. intros E.
  apply existsb_exists in E. destruct E as [d [Hin T]].
  rewrite (H d Hin) in T. discriminate.
Qed.

Lemma someLabel_true l :
  (exists d, In d l /\ MediaDeviceInfo.label d <> "") ->
  someLabel l = true.
Proof.
  intros [d [Hin Hl]]. apply existsb_exists. exists d.
  split; [exact Hin|]. unfold truthy.
  apply String.eqb_neq in Hl. now rewrite Hl.
Qed.

Lemma initDevices_group_app l m m' :
  app m = app m' ->
  app (initDevices_group l m) = app (initDevices_group l m').
Proof.
  intros E. unfold initDevices_group.
  destruct (groupDevices l) as [[|g out]|e]; simpl; now rewrite E.
Qed.

Lemma stops_are_not_acquisitions (l : list MediaStreamTrack) :
  filter isGetUserMedia (map track_stop l) = [].
Proof. induction l as [|t l IH]; [reflexivity | exact IH]. Qed.

Lemma settle_only k r m :
  pending m = [k] ->
  step (settle 0 r) m = resume k r (delivered r (take 0 m)).
Proof. intros E. simpl. now rewrite E. Qed.

(** C8: when the first enumeration has no labelled descriptor, discovery
    requests one [{audio: true, video: true}] stream, stops each of its
    tracks, enumerates again and groups the second list; when some
    descriptor is labelled it makes no request and groups the first
    list. *)
Theorem discovery_probes_once width height fs devs1 stream devs2 :
  ((forall d, In d devs1 -> MediaDeviceInfo.label d = "") ->
   exists m3,
     run [settle 0 (fulfilled_devices devs1);
          settle 0 (fulfilled_stream stream);
          settle 0 (fulfilled_devices devs2)]
         (mounted width height fs) = Some m3 /\
     calls m3 =
       [enumerateDevices;
        getUserMedia (MediaStreamConstraints.mk (flag true) (flag true))]
       ++ map track_stop (getTracks stream) ++ [enumerateDevices] /\
     acquisitions m3 = 1 /\
     (forall t, In t (getTracks stream) -> isLive m3 t = false) /\
     app m3 = app (initDevices_group devs2 (mounted width height fs)) /\
     pending m3 = []) /\
  ((exists d, In d devs1 /\ MediaDeviceInfo.label d <> "") ->
   exists m1,
     run [settle 0 (fulfilled_devices devs1)] (mounted width height fs)
       = Some m1 /\
     calls m1 = [enumerateDevices] /\
     acquisitions m1 = 0 /\
     app m1 = app (initDevices_group devs1 (mounted width height fs)) /\
     pending m1 = []).
Proof.
  split.
  - intros H. apply someLabel_false in H.
    set (M1 := mkMachine
                 (App.mk [] "" false None (Some (mkVideo None fs)))
                 (mkBrowser width height false [])
                 [initDevices_probed] 0
                 [enumerateDevices; getUserMedia probeConstraints]).
    assert (S1 : step (settle 0 (fulfilled_devices devs1))
                      (mounted width height fs) = Some M1).
    { simpl. rewrite H. reflexivity. }
    pose (D := delivered (fulfilled_stream stream) (take 0 M1)).
    pose (X := stopTracks stream D).
    assert (S2 : step (settle 0 (fulfilled_stream stream)) M1 =
                 Some (await initDevices_reenumerated
                             (call enumerateDevices X)))
      by reflexivity.
    destruct (stopTracks_frame stream D) as (Fa & Fp & _).
    pose proof (stopTracks_calls stream D) as Fc.
    pose proof (stopTracks_stopped stream D) as Fl.
    fold X in Fa, Fp, Fc, Fl.
    change (app D) with (app (mounted width height fs)) in Fa.
    change (pending D) with (@nil Continuation) in Fp.
    change (calls D)
      with [enumerateDevices; getUserMedia probeConstraints] in Fc.
    clearbody X. clear D.
    set (M2 := await initDevices_reenumerated
                     (call enumerateDevices X)) in *.
    assert (P2 : pending M2 = [initDevices_reenumerated]).
    { change (pending M2) with (pending X ++ [initDevices_reenumerated]).
      now rewrite Fp. }
    assert (S3 : step (settle 0 (fulfilled_devices devs2)) M2 =
                 Some (initDevices_group devs2 (take 0 M2))).
    { rewrite (settle_only _ (fulfilled_devices devs2) M2 P2).
      reflexivity. }
    exists (initDevices_group devs2 (take 0 M2)).
    destruct (initDevices_group_frame devs2 (take 0 M2))
      as (Gp & Gb & Gc & _).
    split; [|split; [|split; [|split; [|split]]]].
    + cbn [run]. rewrite S1, S2, S3. reflexivity.
    + rewrite Gc.
      change (calls (take 0 M2)) with (calls X ++ [enumerateDevices]).
      rewrite Fc. now rewrite <- app_assoc.
    + unfold acquisitions. rewrite Gc.
      change (calls (take 0 M2)) with (calls X ++ [enumerateDevices]).
      rewrite Fc, !filter_app, !length_app.
      rewrite stops_are_not_acquisitions. reflexivity.
    + intros t Hin. unfold isLive. rewrite Gb.
      change (browser (take 0 M2)) with (browser X).
      now apply Fl.
    + apply initDevices_group_app.
      change (app (take 0 M2)) with (app X). exact Fa.
    + rewrite Gp. change (pending (take 0 M2))
        with (removeNth 0 (pending M2)).
      now rewrite P2.
  - intros H. apply someLabel_true in H.
    set (M0 := mkMachine
                 (App.mk [] "" false None (Some (mkVideo None fs)))
                 (mkBrowser width height false []) [] 0
                 [enumerateDevices]).
    assert (S1 : step (settle 0 (fulfilled_devices devs1))
                      (mounted width height fs) =
                 Some (initDevices_group devs1 M0)).
    { simpl. rewrite H. reflexivity. }
    exists (initDevices_group devs1 M0).
    destruct (initDevices_group_frame devs1 M0) as (Gp & Gb & Gc & _).
    split; [|split; [|split; [|split]]].
    + cbn [run]. now rewrite S1.
    + exact Gc.
    + unfold acquisitions. now rewrite Gc.
    + now apply initDevices_group_app.
    + exact Gp.
Qed.

(** [discovery_probes_once] on a concrete input. *)
Lemma discovery_probes_once_witness :
  exists m3,
    run [settle 0 (fulfilled_devices
                     [camera "usb" ""; microphone "usb" ""]);
         settle 0 (fulfilled_stream (mkStream [7; 8]));
         settle 0 (fulfilled_devices webcam)]
        (mounted 1920 1080 true) = Some m3 /\
    calls m3 =
      [enumerateDevices;
       getUserMedia (MediaStreamConstraints.mk (flag true) (flag true))]
      ++ map track_stop [7; 8] ++ [enumerateDevices] /\
    acquisitions m3 = 1 /\
    (forall t, In t [7; 8] -> isLive m3 t = false) /\
    app m3 = app (initDevices_group webcam (mounted 1920 1080 true)) /\
    pending m3 = [].
Proof.
  apply (discovery_probes_once 1920 1080 true
           [camera "usb" ""; microphone "usb" ""]
           (mkStream [7; 8]) webcam).
  intros d [<- | [<- | []]]; reflexivity.
Defined.
End Probe.


(** * More of the component *)

(** ** What discovery returns *)

Section DiscoveryMore.
Local Abbreviation gid := MediaDeviceInfo.groupId.

Lemma groupByGroupId_Throw l : forall o e,
  groupByGroupId l o = Throw e -> e = TypeError_push.
Proof.
  induction l as [|d l IH]; intros o e H; [discriminate|].
  cbn [groupByGroupId] in H.
  destruct (negb (truthy (gid d))); [now apply (IH o)|].
  destruct (JSObject.get o (gid d)).
  - now apply (IH _ e H).
  - now injection H as <-.
  - now apply (IH _ e H).
Qed.

Lemma prototypeFree_false l :
  prototypeFree l = false <->
  exists d, In d l /\ JSObject.inherited (gid d) = true.
Proof.
  unfold prototypeFree. split.
  - intros H. induction l as [|d l IH]; [discriminate|].
    simpl in H. destruct (JSObject.inherited (gid d)) eqn:E.
    + exists d. split; [now left | exact E].
    + destruct (IH H) as [d' [Hin Hd']]. exists d'. split; [now right|].
      exact Hd'.
  - intros [d [Hin E]]. apply not_true_is_false. intros H.
    rewrite forallb_forall in H. apply H in Hin. rewrite E in Hin.
    discriminate.
Qed.

(** One group id that names a member of [Object.prototype] is enough to
    make discovery fail as a whole: line 36 throws, no group is listed,
    the selection is untouched and the error text of line 62 is shown. *)
Theorem inherited_groupId_fails_discovery allDevices d m :
  In d allDevices ->
  JSObject.inherited (MediaDeviceInfo.groupId d) = true ->
  groupDevices allDevices = Throw TypeError_push /\
  App.error (app (initDevices_group allDevices m)) =
    Some "Error: group.push is not a function. Ensure HTTPS/localhost and grant permissions." /\
  App.devices (app (initDevices_group allDevices m)) =
    App.devices (app m) /\
  App.selectedGroupId (app (initDevices_group allDevices m)) =
    App.selectedGroupId (app m).
Proof.
  intros Hin Hd.
  assert (PF : prototypeFree allDevices = false)
    by (apply prototypeFree_false; now exists d).
  assert (T : groupDevices allDevices = Throw TypeError_push).
  { destruct (groupDevices allDevices) as [out|e] eqn:E.
    - apply groupDevices_Normal in E. congruence.
    - unfold groupDevices in E.
      destruct (groupByGroupId allDevices JSObject.empty) eqn:R;
        [discriminate|].
      injection E as <-. f_equal. now apply (groupByGroupId_Throw _ _ _ R). }
  split; [exact T|]. unfold initDevices_group. rewrite T.
  repeat split.
Qed.

(** [inherited_groupId_fails_discovery] on a concrete input. *)
Lemma inherited_groupId_fails_discovery_witness :
  groupDevices (webcam ++ [camera "toString" "Cam"]) =
    Throw TypeError_push /\
  App.error
    (app (initDevices_group (webcam ++ [camera "toString" "Cam"])
                            (mounted 1920 1080 true))) =
    Some "Error: group.push is not a function. Ensure HTTPS/localhost and grant permissions." /\
  App.devices
    (app (initDevices_group (webcam ++ [camera "toString" "Cam"])
                            (mounted 1920 1080 true))) =
    App.devices (app (mounted 1920 1080 true)) /\
  App.selectedGroupId
    (app (initDevices_group (webcam ++ [camera "toString" "Cam"])
                            (mounted 1920 1080 true))) =
    App.selectedGroupId (app (mounted 1920 1080 true)).
Proof.
  apply (inherited_groupId_fails_discovery
           (webcam ++ [camera "toString" "Cam"])
           (camera "toString" "Cam") (mounted 1920 1080 true)).
  - simpl. right. right. left. reflexivity.
  - reflexivity.
Defined.

Lemma find_filter_first (p q : MediaDeviceInfo.t -> bool) l : forall v,
  find p (filter q l) = Some v ->
  exists l1 l2,
    l = l1 ++ v :: l2 /\ p v = true /\ q v = true /\
    forall d, In d l1 -> p d && q d = false.
Proof.
  induction l as [|x l IH]; intros v H; [discriminate|].
  simpl in H. destruct (q x) eqn:Q.
  - simpl in H. destruct (p x) eqn:P.
    + injection H as <-. exists [], l. repeat split; auto.
      intros d [].
    + destruct (IH v H) as [l1 [l2 [-> [Pv [Qv Hl1]]]]].
      exists (x :: l1), l2. repeat split; auto.
      intros d [<- | Hd]; [now rewrite P | now apply Hl1].
  - destruct (IH v H) as [l1 [l2 [-> [Pv [Qv Hl1]]]]].
    exists (x :: l1), l2. repeat split; auto.
    intros d [<- | Hd]; [now rewrite Q, andb_false_r | now apply Hl1].
Qed.

Lemma isKind_eq kd d :
  isKind kd d = true <-> MediaDeviceInfo.kind d = kd.
Proof.
  unfold isKind. destruct (MediaDeviceInfo.kind d), kd; simpl;
    split; congruence.
Qed.

Lemma find_members_firstOf kd k l v :
  find (isKind kd) (members k l) = Some v -> firstOf kd k v l.
Proof.
  intros H. apply find_filter_first in H.
  destruct H as [l1 [l2 [-> [Pv [Qv Hl1]]]]].
  apply isKind_eq in Pv. apply andb_true_iff in Qv.
  destruct Qv as [Nv Gv]. apply String.eqb_eq in Gv.
  exists l1, l2. repeat split; auto.
  intros d' Hd' [Kd Gd]. apply Hl1 in Hd'.
  apply isKind_eq in Kd. rewrite Kd in Hd'. simpl in Hd'.
  apply andb_false_iff in Hd'. unfold nonEmptyId, truthy in *.
  rewrite Gd, <- Gv in Hd'. rewrite Nv, String.eqb_refl in Hd'.
  destruct Hd'; discriminate.
Qed.

(** The two descriptors of a returned group are the first video input and
    the first audio input of the enumeration that carry the group's id
    (lines 42-43 use [find]); later ones of the same hardware group are
    ignored. *)
Theorem group_descriptors_are_first allDevices validGroups G :
  groupDevices allDevices = Normal validGroups ->
  In G validGroups ->
  exists v a,
    DeviceGroup.video G = Some v /\
    DeviceGroup.audio G = Some a /\
    firstOf videoinput (DeviceGroup.groupId G) v allDevices /\
    firstOf audioinput (DeviceGroup.groupId G) a allDevices.
Proof.
  intros Hrun Hin. pose proof (groupDevices_Normal _ _ Hrun) as PF.
  destruct (groupDevices_spec allDevices PF)
    as [o' [out [_ [Hrun' [_ Hspec]]]]].
  rewrite Hrun in Hrun'. injection Hrun' as <-.
  apply Hspec in Hin. destruct Hin as [k [Hk HG]].
  pose proof (pairOf_members _ _ _ HG) as [Ek _].
  apply pairOf_Some in HG. destruct HG as [v [a [Fv [Fa ->]]]].
  simpl in *. exists v, a. rewrite Ek.
  repeat split; now apply find_members_firstOf.
Qed.

(** [group_descriptors_are_first] on a concrete input. *)
Lemma group_descriptors_are_first_witness :
  exists v a,
    DeviceGroup.video
      (DeviceGroup.mk "usb" (Some (camera "usb" "HD Webcam"))
         (Some (microphone "usb" "Webcam Mic")) "HD Webcam") = Some v /\
    DeviceGroup.audio
      (DeviceGroup.mk "usb" (Some (camera "usb" "HD Webcam"))
         (Some (microphone "usb" "Webcam Mic")) "HD Webcam") = Some a /\
    firstOf videoinput "usb" v (webcam ++ [camera "usb" "Second lens"]) /\
    firstOf audioinput "usb" a (webcam ++ [camera "usb" "Second lens"]).
Proof.
  apply (group_descriptors_are_first
           (webcam ++ [camera "usb" "Second lens"])
           [DeviceGroup.mk "usb" (Some (camera "usb" "HD Webcam"))
              (Some (microphone "usb" "Webcam Mic")) "HD Webcam"]).
  - reflexivity.
  - left. reflexivity.
Defined.

Lemma find_filter_implied (p q : MediaDeviceInfo.t -> bool) l :
  (forall d, p d = true -> q d = true) ->
  find p (filter q l) = find p l.
Proof.
  intros H. induction l as [|x l IH]; [reflexivity|].
  simpl. destruct (q x) eqn:Q; simpl.
  - now rewrite IH.
  - destruct (p x) eqn:P; [|exact IH].
    apply H in P. congruence.
Qed.

Lemma members_filter q k l :
  members k (filter q l) = filter q (members k l).
Proof.
  unfold members. induction l as [|x l IH]; [reflexivity|].
  simpl. destruct (q x) eqn:Q; simpl;
    destruct (nonEmptyId x && (gid x =? k)); simpl;
    rewrite ?Q, IH; reflexivity.
Qed.

Lemma pairOf_inputs group :
  pairOf (filter isInput group) = pairOf group.
Proof.
  unfold pairOf.
  rewrite !find_filter_implied; [reflexivity| |];
    intros d Hd; unfold isInput; rewrite Hd; auto using orb_true_r.
Qed.

Lemma prototypeFree_filter q l :
  prototypeFree l = true -> prototypeFree (filter q l) = true.
Proof.
  unfold prototypeFree. rewrite !forallb_forall.
  intros H d Hd. apply filter_In in Hd. now apply H.
Qed.

(** Descriptors that are neither video nor audio inputs (speakers) never
    change which groups are returned: discovery yields the same groups
    with and without them.  (They can change the order, because they
    create their group's key.) *)
Theorem other_kinds_do_not_matter allDevices :
  prototypeFree allDevices = true ->
  exists validGroups validGroups',
    groupDevices allDevices = Normal validGroups /\
    groupDevices (filter isInput allDevices) = Normal validGroups' /\
    forall G, In G validGroups <-> In G validGroups'.
Proof.
  intros PF.
  destruct (groupDevices_spec allDevices PF)
    as [o1 [out1 [_ [R1 [_ S1]]]]].
  destruct (groupDevices_spec (filter isInput allDevices)
                              (prototypeFree_filter _ _ PF))
    as [o2 [out2 [_ [R2 [_ S2]]]]].
  exists out1, out2. repeat split; try assumption.
  - intros H. apply S1 in H. destruct H as [k [Hk HG]].
    apply S2. exists k. split; [exact Hk|].
    now rewrite members_filter, pairOf_inputs.
  - intros H. apply S2 in H. destruct H as [k [Hk HG]].
    apply S1. exists k. split; [exact Hk|].
    now rewrite members_filter, pairOf_inputs in HG.
Qed.

(** [other_kinds_do_not_matter] on a concrete input. *)
Lemma other_kinds_do_not_matter_witness :
  exists validGroups validGroups',
    groupDevices
      (MediaDeviceInfo.mk "spk" audiooutput "hdmi" "Speakers" :: webcam) =
      Normal validGroups /\
    groupDevices
      (filter isInput
         (MediaDeviceInfo.mk "spk" audiooutput "hdmi" "Speakers" :: webcam))
      = Normal validGroups' /\
    forall G, In G validGroups <-> In G validGroups'.
Proof.
  apply (other_kinds_do_not_matter
           (MediaDeviceInfo.mk "spk" audiooutput "hdmi" "Speakers"
              :: webcam)).
  reflexivity.
Defined.

Lemma Sorted_index_StronglySorted (V : Type)
      (l : list (N * (string * V))) :
  StronglySorted (fun a b => (fst a <= fst b)%N) (JSObject.sortByIndex l).
Proof.
  apply Sorted_StronglySorted; [|apply sortByIndex_Sorted].
  intros a b c. apply N.le_trans.
Qed.

(** Groups read from sorted index entries come out sorted. *)
Lemma pairsOf_index_sorted l
      (S : list (N * (string * list MediaDeviceInfo.t))) :
  StronglySorted (fun a b => (fst a <= fst b)%N) S ->
  (forall e, In e S ->
             JSObject.arrayIndex (fst (snd e)) = Some (fst e) /\
             snd (snd e) = members (fst (snd e)) l) ->
  StronglySorted indexLe (pairsOf (map snd (map snd S))) /\
  forall G, In G (pairsOf (map snd (map snd S))) ->
            exists e, In e S /\
                      JSObject.arrayIndex (DeviceGroup.groupId G) =
                        Some (fst e).
Proof.
  induction 1 as [|e S HS IH Hall]; intros He.
  - split; [constructor | intros G []].
  - destruct IH as [IH1 IH2]; [intros; apply He; now right|].
    cbn [map]. rewrite pairsOf_cons.
    destruct (He e (or_introl eq_refl)) as [Ei Em].
    destruct (pairOf (snd (snd e))) as [G|] eqn:P; cbn [List.app].
    + rewrite Em in P. apply pairOf_members in P. destruct P as [EG _].
      split.
      * constructor; [exact IH1|]. apply Forall_forall. intros G' HG'.
        destruct (IH2 G' HG') as [e' [He' EG']].
        unfold indexLe. rewrite EG, Ei, EG'.
        rewrite Forall_forall in Hall. now apply Hall.
      * intros G' [<- | HG'].
        -- exists e. split; [now left|]. now rewrite EG.
        -- destruct (IH2 G' HG') as [e' [He' EG']].
           exists e'. split; [now right | exact EG'].
    + split; [exact IH1|]. intros G' HG'.
      destruct (IH2 G' HG') as [e' [He' EG']].
      exists e'. split; [now right | exact EG'].
Qed.

(** The order of the returned groups is the order of [Object.values]:
    first the groups whose id is an array index, in ascending numeric
    order, then the groups with any other id. *)
Theorem array_index_groups_come_first allDevices validGroups :
  groupDevices allDevices = Normal validGroups ->
  exists indexed named,
    validGroups = indexed ++ named /\
    StronglySorted indexLe indexed /\
    (forall G, In G indexed ->
               JSObject.isArrayIndex (DeviceGroup.groupId G) = true) /\
    (forall G, In G named ->
               JSObject.isArrayIndex (DeviceGroup.groupId G) = false).
Proof.
  intros Hrun. pose proof (groupDevices_Normal _ _ Hrun) as PF.
  destruct (groups_built allDevices PF) as [o' [Hb [ND [_ Hin]]]].
  unfold groupDevices in Hrun. rewrite Hb, collectValid_pairsOf in Hrun.
  injection Hrun as <-.
  unfold JSObject.values, JSObject.entries. rewrite map_app, pairsOf_app.
  set (S := JSObject.sortByIndex (JSObject.indexEntries o')).
  assert (HS : forall e, In e S ->
             JSObject.arrayIndex (fst (snd e)) = Some (fst e) /\
             snd (snd e) = members (fst (snd e)) allDevices).
  { intros [n [k v]] He. unfold S in He.
    apply (proj1 (In_sortByIndex _ _ _)) in He.
    unfold JSObject.indexEntries in He.
    apply in_flat_map in He. destruct He as [[k' v'] [Ho He]].
    simpl in He. destruct (JSObject.arrayIndex k') eqn:A; [|destruct He].
    destruct He as [[= <- <- <-] | []]. simpl. split; [exact A|].
    now apply Hin in Ho. }
  destruct (pairsOf_index_sorted allDevices S
              (Sorted_index_StronglySorted _ _) HS) as [Sorted1 Idx].
  exists (pairsOf (map snd (map snd S))),
    (pairsOf (map snd (JSObject.namedEntries o'))).
  repeat split; try assumption.
  - intros G HG. destruct (Idx G HG) as [e [_ E]].
    unfold JSObject.isArrayIndex. now rewrite E.
  - intros G HG. apply In_pairsOf in HG. destruct HG as [grp [Hg HG]].
    apply in_map_iff in Hg. destruct Hg as [[k v] [<- Hkv]].
    unfold JSObject.namedEntries in Hkv. apply filter_In in Hkv.
    destruct Hkv as [Ho Hn]. simpl in *. apply negb_true_iff in Hn.
    apply Hin in Ho. destruct Ho as [-> _].
    apply pairOf_members in HG. destruct HG as [-> _]. exact Hn.
Qed.

(** [array_index_groups_come_first] on a concrete input. *)
Lemma array_index_groups_come_first_witness :
  exists indexed named,
    [DeviceGroup.mk "7" (Some (camera "7" "")) (Some (microphone "7" ""))
       "Unknown Capture Device";
     DeviceGroup.mk "usb" (Some (camera "usb" "HD Webcam"))
       (Some (microphone "usb" "Webcam Mic")) "HD Webcam"] =
      indexed ++ named /\
    StronglySorted indexLe indexed /\
    (forall G, In G indexed ->
               JSObject.isArrayIndex (DeviceGroup.groupId G) = true) /\
    (forall G, In G named ->
               JSObject.isArrayIndex (DeviceGroup.groupId G) = false).
Proof.
  apply (array_index_groups_come_first
           (webcam ++ [camera "7" ""; microphone "7" ""])).
  reflexivity.
Defined.

(** After a discovery that ends normally the start button is enabled
    exactly when some non-empty group id has both a video and an audio
    input (lines 55 and 157). *)
Theorem start_enabled_iff_paired allDevices m :
  prototypeFree allDevices = true ->
  App.isStreaming (app m) = false ->
  App.error (app m) = None ->
  (startEnabled (app (initDevices_group allDevices m)) = true <->
   exists g, g <> "" /\ paired g allDevices = true).
Proof.
  intros PF Hs He.
  destruct (groupDevices_spec allDevices PF)
    as [o' [out [_ [Hrun [_ Hspec]]]]].
  unfold initDevices_group. rewrite Hrun.
  assert (E : startEnabled
                (app match out with
                     | g :: _ => setSelectedGroupId (DeviceGroup.groupId g)
                                   (setDevices out m)
                     | [] => setDevices out m
                     end) = negb (Nat.eqb (length out) 0)).
  { unfold startEnabled, controlsRendered.
    destruct out; simpl; now rewrite Hs, He. }
  cbv zeta. rewrite E. split.
  - intros H. destruct out as [|G out]; [discriminate|].
    destruct (proj1 (Hspec G) (or_introl eq_refl)) as [k [Hk HG]].
    exists k. split; [exact Hk|]. now apply pairOf_members in HG.
  - intros [g [Hg HP]].
    destruct (paired_pairOf g allDevices Hg HP) as [G [HG _]].
    assert (Hin : In G out) by (apply Hspec; now exists g).
    destruct out; [destruct Hin | reflexivity].
Qed.

(** [start_enabled_iff_paired] on a concrete input. *)
Lemma start_enabled_iff_paired_witness :
  startEnabled
    (app (initDevices_group (webcam ++ [camera "hdmi" "Capture"])
                            (mounted 1920 1080 true))) = true <->
  exists g, g <> "" /\
            paired g (webcam ++ [camera "hdmi" "Capture"]) = true.
Proof.
  apply (start_enabled_iff_paired (webcam ++ [camera "hdmi" "Capture"])
                                  (mounted 1920 1080 true));
    reflexivity.
Defined.
End DiscoveryMore.


(** ** The selector *)

Section Selector.
Implicit Types (m : Machine).

Lemma initDevices_group_devices_cases l m :
  App.devices (app (initDevices_group l m)) = App.devices (app m) \/
  groupDevices l = Normal (App.devices (app (initDevices_group l m))).
Proof.
  unfold initDevices_group.
  destruct (groupDevices l) as [[|g out]|e]; simpl; auto.
Qed.

Lemma step_devices ev m m' :
  step ev m = Some m' ->
  App.devices (app m') = App.devices (app m) \/
  exists l, groupDevices l = Normal (App.devices (app m')).
Proof.
  intros Hstep.
  destruct ev as [i r| | |value|element|]; simpl in Hstep.
  - destruct (nth_error (pending m) i) as [k|]; [|discriminate].
    destruct (delivered_frame r (take i m)) as [Fa _].
    change (app (take i m)) with (app m) in Fa.
    remember (delivered r (take i m)) as m1 eqn:Hm1. clear Hm1.
    assert (G : forall l,
      App.devices (app (initDevices_group l m1)) = App.devices (app m) \/
      exists l0, groupDevices l0 =
                 Normal (App.devices (app (initDevices_group l m1)))).
    { intros l. destruct (initDevices_group_devices_cases l m1) as [E|E].
      - left. now rewrite E, Fa.
      - right. now exists l. }
    destruct k, r; simpl in Hstep; try discriminate.
    + destruct (someLabel l); simpl in Hstep; injection Hstep as <-.
      * apply G.
      * left. simpl. now rewrite Fa.
    + injection Hstep as <-. left. simpl. now rewrite Fa.
    + injection Hstep as <-. left.
      destruct (stopTracks_frame s m1) as (Ga & _).
      simpl. now rewrite Ga, Fa.
    + injection Hstep as <-. left. simpl. now rewrite Fa.
    + injection Hstep as <-. apply G.
    + injection Hstep as <-. left. simpl. now rewrite Fa.
    + destruct (App.videoRef (app m1)); injection Hstep as <-; left;
        simpl; now rewrite Fa.
    + injection Hstep as <-. left. simpl. now rewrite Fa.
    + injection Hstep as <-. left. now rewrite Fa.
    + injection Hstep as <-. left. simpl. now rewrite Fa.
  - destruct (timers m) as [|n]; [discriminate|].
    injection Hstep as <-. left. now rewrite fullscreenTimer_frame.
  - destruct (startEnabled (app m)); [|discriminate].
    injection Hstep as <-. left.
    now destruct (startStream_frame m) as (A & _).
  - destruct (controlsRendered (app m) && _); [|discriminate].
    injection Hstep as <-. now left.
  - injection Hstep as <-. left.
    now destruct (handleFullscreenChange_frame
                    (set_fullscreenElement element m)) as (A & _).
  - injection Hstep as <-. now left.
Qed.

Lemma reachable_fromDiscovery m : reachable m -> fromDiscovery m.
Proof.
  induction 1 as [w h fs | ev m m' R IH Hstep].
  - now left.
  - destruct (step_devices ev m m' Hstep) as [E | [l E]].
    + unfold fromDiscovery in *. now rewrite E.
    + right. now exists l.
Qed.



Lemma selected_is_listed m :
  reachable m -> App.devices (app m) <> [] ->
  exists G video audio,
    selectedGroup (app m) = Some G /\
    In G (App.devices (app m)) /\
    DeviceGroup.groupId G = App.selectedGroupId (app m) /\
    DeviceGroup.video G = Some video /\
    DeviceGroup.audio G = Some audio.
Proof.
  intros R Hd. destruct (reachable_wf m R) as [_ _ _ _ W5 W6].
  apply W5 in Hd. unfold optionValues in Hd. apply in_map_iff in Hd.
  destruct Hd as [G0 [E0 H0]].
  unfold selectedGroup.
  destruct (find _ (App.devices (app m))) as [G|] eqn:F.
  - apply find_some in F. destruct F as [HG EG].
    apply String.eqb_eq in EG.
    destruct (W6 G HG) as [v [a [Hv Ha]]].
    now exists G, v, a.
  - apply (find_none _ _ F) in H0. rewrite E0, String.eqb_refl in H0.
    discriminate.
Qed.

(** Whenever the start button is enabled, a click on it requests a
    stream: the selection always names a listed group with both
    descriptors, so [startStream] never returns at line 72, and the
    session is Starting afterwards. *)
Theorem enabled_start_acquires m :
  reachable m ->
  startEnabled (app m) = true ->
  exists m',
    step click_start m = Some m' /\
    acquisitions m' = S (acquisitions m) /\
    sessionState m' = Starting.
Proof.
  intros R En. simpl. rewrite En. eexists. split; [reflexivity|].
  unfold startEnabled, controlsRendered in En.
  apply andb_true_iff in En. destruct En as [En Hd].
  apply andb_true_iff in En. destruct En as [Hs _].
  apply negb_true_iff in Hs.
  assert (Hne : App.devices (app m) <> []).
  { intros E. rewrite E in Hd. discriminate. }
  destruct (selected_is_listed m R Hne) as [G [v [a [Sg [_ [_ [Hv Ha]]]]]]].
  unfold startStream. rewrite Sg, Hv, Ha. split.
  - unfold acquisitions. simpl. rewrite filter_app, length_app. simpl. lia.
  - unfold sessionState, startsInFlight. simpl. rewrite Hs.
    rewrite filter_app, length_app. simpl.
    destruct (length _ + 1) eqn:E; [lia | reflexivity].
Qed.

(** [enabled_start_acquires] on a concrete input. *)
Lemma enabled_start_acquires_witness :
  exists m',
    step click_start (initDevices_group webcam (take 0 (mounted 1920 1080 true)))
      = Some m' /\
    acquisitions m' =
      S (acquisitions
           (initDevices_group webcam (take 0 (mounted 1920 1080 true)))) /\
    sessionState m' = Starting.
Proof.
  apply (enabled_start_acquires
           (initDevices_group webcam (take 0 (mounted 1920 1080 true)))).
  - apply (@reachable_step (settle 0 (fulfilled_devices webcam))
                           (mounted 1920 1080 true)).
    + apply reachable_mounted.
    + reflexivity.
  - reflexivity.
Defined.

Lemma NoDup_map_unique (A B : Type) (f : A -> B) (l : list A) x y :
  NoDup (map f l) -> In x l -> In y l -> f x = f y -> x = y.
Proof.
  induction l as [|a l IH]; intros ND Hx Hy E; [destruct Hx|].
  simpl in ND. inversion ND as [|? ? Hnot ND']; subst.
  destruct Hx as [<- | Hx], Hy as [<- | Hy]; auto.
  - exfalso. apply Hnot. rewrite E. now apply in_map.
  - exfalso. apply Hnot. rewrite <- E. now apply in_map.
Qed.

(** Choosing an option and then starting requests exactly the devices of
    the one listed group whose id is the chosen value (lines 146 and
    71-86). *)
Theorem select_then_start m value m1 :
  reachable m ->
  step (change_select value) m = Some m1 ->
  exists G video audio,
    In G (App.devices (app m)) /\
    DeviceGroup.groupId G = value /\
    (forall G', In G' (App.devices (app m)) ->
                DeviceGroup.groupId G' = value -> G' = G) /\
    DeviceGroup.video G = Some video /\
    DeviceGroup.audio G = Some audio /\
    step click_start m1 =
      Some (await startStream_acquired
              (call (getUserMedia (constraintsOf video audio (browser m)))
                    m1)).
Proof.
  intros R Hstep.
  assert (R1 : reachable m1) by (eapply reachable_step; eassumption).
  simpl in Hstep.
  destruct (controlsRendered (app m)) eqn:Cr; [|discriminate].
  destruct (existsb (String.eqb value) (optionValues (app m))) eqn:Ex;
    [|discriminate].
  simpl in Hstep. injection Hstep as <-.
  assert (Hne : App.devices (app m) <> []).
  { intros E. unfold optionValues in Ex. rewrite E in Ex. discriminate. }
  destruct (selected_is_listed (setSelectedGroupId value m) R1 Hne)
    as [G [v [a [Sg [HG [EG [Hv Ha]]]]]]].
  simpl in HG, EG.
  exists G, v, a. repeat split; try assumption.
  - intros G' HG' EG'.
    assert (ND : NoDup (map DeviceGroup.groupId (App.devices (app m)))).
    { destruct (reachable_fromDiscovery m R) as [E | [l E]];
        [congruence | now apply (groupDevices_distinct l)]. }
    apply (NoDup_map_unique _ _ DeviceGroup.groupId
                            (App.devices (app m))); congruence.
  - simpl. unfold startEnabled. simpl.
    change (controlsRendered
              (App.mk (App.devices (app m)) value (App.isStreaming (app m))
                      (App.error (app m)) (App.videoRef (app m))))
      with (controlsRendered (app m)).
    rewrite Cr. destruct (App.devices (app m)) eqn:D; [congruence|].
    simpl. unfold startStream. rewrite <- D in *.
    change (selectedGroup (app (setSelectedGroupId value m)) = Some G)
      in Sg.
    now rewrite Sg, Hv, Ha.
Qed.

Lemma listed_reachable : reachable listed.
Proof.
  apply (@reachable_step (settle 0 (fulfilled_devices webcam))
                         (mounted 1920 1080 true));
    [apply reachable_mounted | vm_compute; reflexivity].
Qed.

(** [select_then_start] on a concrete input. *)
Lemma select_then_start_witness :
  exists G video audio,
    In G (App.devices (app listed)) /\
    DeviceGroup.groupId G = "usb" /\
    (forall G', In G' (App.devices (app listed)) ->
                DeviceGroup.groupId G' = "usb" -> G' = G) /\
    DeviceGroup.video G = Some video /\
    DeviceGroup.audio G = Some audio /\
    step click_start (setSelectedGroupId "usb" listed) =
      Some (await startStream_acquired
              (call (getUserMedia
                       (constraintsOf video audio (browser listed)))
                    (setSelectedGroupId "usb" listed))).
Proof.
  apply (select_then_start listed "usb" (setSelectedGroupId "usb" listed)).
  - exact listed_reachable.
  - reflexivity.
Defined.
End Selector.

(** ** Stopping and replacing a stream *)

Section StopMore.
Implicit Types (m : Machine).

(** A second exit notification finds nothing to do: stopping is
    idempotent, no track is stopped twice and no state cell changes
    (lines 114-123 on a sink whose [srcObject] is already null). *)
Theorem stop_is_idempotent m :
  fullscreenElement (browser m) = false ->
  handleFullscreenChange (handleFullscreenChange m) =
  handleFullscreenChange m.
Proof.
  intros H.
  destruct m as [[dv sel str err vr] [w h fe lv] pd tm cl].
  simpl in H. subst fe.
  destruct vr as [[[s|] hrf]|]; try reflexivity.
  set (M0 := mkMachine
               (App.mk dv sel false err (Some (mkVideo (Some s) hrf)))
               (mkBrowser w h false lv) pd tm cl).
  assert (E : handleFullscreenChange
                (mkMachine
                   (App.mk dv sel str err (Some (mkVideo (Some s) hrf)))
                   (mkBrowser w h false lv) pd tm cl) =
              set_srcObject None (stopTracks s M0)) by reflexivity.
  rewrite E. clear E.
  destruct (stopTracks_frame s M0) as (Fa & _ & _ & Ff & _).
  change (app M0)
    with (App.mk dv sel false err (Some (mkVideo (Some s) hrf))) in Fa.
  change (fullscreenElement (browser M0)) with false in Ff.
  remember (stopTracks s M0) as X eqn:HX. clear HX M0.
  destruct X as [ax [wx hx fx lx] px tx cx]. simpl in Fa, Ff. subst ax fx.
  reflexivity.
Qed.

(** [stop_is_idempotent] on a concrete input. *)
Lemma stop_is_idempotent_witness :
  handleFullscreenChange
    (handleFullscreenChange (set_fullscreenElement false streaming)) =
  handleFullscreenChange (set_fullscreenElement false streaming).
Proof.
  apply (stop_is_idempotent (set_fullscreenElement false streaming)).
  reflexivity.
Defined.

(** Line 91 binds the new stream without stopping the one it replaces:
    when an acquisition succeeds while another stream is bound, a running
    track of the replaced stream that is not part of the new one is still
    running after the new stream was bound, and still running after the
    next stop, which stops the tracks of the stream bound last. *)
Theorem replaced_stream_keeps_running m i old new t :
  nth_error (pending m) i = Some startStream_acquired ->
  currentStream m = Some old ->
  In t (getTracks old) ->
  isLive m t = true ->
  ~ In t (getTracks new) ->
  exists m1 m2,
    step (settle i (fulfilled_stream new)) m = Some m1 /\
    currentStream m1 = Some new /\
    isLive m1 t = true /\
    step (fullscreenchange false) m1 = Some m2 /\
    currentStream m2 = None /\
    isLive m2 t = true.
Proof.
  intros N Hc Hin Hl Hn.
  destruct m as [[dv sel str err vr] [w h fe lv] pd tm cl].
  unfold currentStream in Hc. simpl in Hc, N.
  destruct vr as [[src hrf]|]; [|discriminate]. simpl in Hc. subst src.
  apply isLive_iff in Hl. simpl in Hl.
  eexists. eexists. split; [simpl; rewrite N; reflexivity|].
  split; [reflexivity|]. split.
  { apply isLive_iff. simpl. apply in_app_iff. now right. }
  split; [reflexivity|]. split.
  { apply (handleFullscreenChange_releases
             (set_fullscreenElement false _)). reflexivity. }
  apply isLive_iff. unfold handleFullscreenChange. cbn.
  apply stopTracks_live. simpl. split; [|exact Hn].
  apply in_app_iff. now right.
Qed.

(** [replaced_stream_keeps_running] on a concrete input. *)
Lemma replaced_stream_keeps_running_witness :
  exists m1 m2,
    step (settle 0 (fulfilled_stream (mkStream [3; 4])))
         (await startStream_acquired streaming) = Some m1 /\
    currentStream m1 = Some (mkStream [3; 4]) /\
    isLive m1 1 = true /\
    step (fullscreenchange false) m1 = Some m2 /\
    currentStream m2 = None /\
    isLive m2 1 = true.
Proof.
  apply (replaced_stream_keeps_running
           (await startStream_acquired streaming) 0
           (mkStream [1; 2]) (mkStream [3; 4]) 1).
  - reflexivity.
  - reflexivity.
  - simpl. left. reflexivity.
  - reflexivity.
  - simpl. intros [H | [H | []]]; discriminate.
Defined.
End StopMore.

(** ** Entering full screen *)

Section Fullscreen.
Implicit Types (m : Machine).

Lemma nth_error_snoc (A : Type) (l : list A) (x : A) :
  nth_error (l ++ [x]) (length l) = Some x.
Proof. induction l as [|a l IH]; [reflexivity | exact IH]. Qed.

Lemma removeNth_snoc (A : Type) (l : list A) (x : A) :
  removeNth (length l) (l ++ [x]) = l.
Proof.
  induction l as [|a l IH]; [reflexivity|]. simpl. now rewrite IH.
Qed.

Lemma run_app evs1 : forall evs2 m,
  run (evs1 ++ evs2) m =
  match run evs1 m with
  | Some m' => run evs2 m'
  | None => None
  end.
Proof.
  induction evs1 as [|ev evs1 IH]; intros evs2 m; [reflexivity|].
  simpl. destruct (step ev m); [apply IH | reflexivity].
Qed.

Lemma settle_last k r m :
  step (settle (length (pending m)) r) (await k m) =
  resume k r (delivered r m).
Proof.
  simpl. rewrite nth_error_snoc. unfold take. simpl.
  rewrite removeNth_snoc. now destruct m.
Qed.

(** A successful acquisition schedules one timer; when it fires, full
    screen is requested on the video element with the navigation UI
    hidden; when that request is rejected the error is only logged: the
    stream stays bound, its tracks keep running and [isStreaming] stays
    true (lines 92-104). *)
Theorem fullscreen_failure_is_not_fatal m i stream video e :
  nth_error (pending m) i = Some startStream_acquired ->
  App.videoRef (app m) = Some video ->
  hasRequestFullscreen video = true ->
  exists m',
    run [settle i (fulfilled_stream stream); timeout;
         settle (length (removeNth i (pending m))) (rejected e)] m
      = Some m' /\
    calls m' =
      calls m ++ [setTimeout 100; requestFullscreen "hide";
                  console_error "Fullscreen failed" e] /\
    currentStream m' = Some stream /\
    App.isStreaming (app m') = true /\
    (forall t, In t (getTracks stream) -> isLive m' t = true) /\
    pending m' = removeNth i (pending m) /\
    timers m' = timers m.
Proof.
  intros N V F.
  destruct m as [[dv sel str err vr] [w h fe lv] pd tm cl].
  simpl in N, V. subst vr. destruct video as [src hrf]. simpl in F.
  subst hrf.
  set (M2 := mkMachine
               (App.mk dv sel true err (Some (mkVideo (Some stream) true)))
               (mkBrowser w h fe (getTracks stream ++ lv))
               (removeNth i pd) tm (cl ++ [setTimeout 100])).
  assert (S12 : run [settle i (fulfilled_stream stream); timeout]
                    (mkMachine
                       (App.mk dv sel str err (Some (mkVideo src true)))
                       (mkBrowser w h fe lv) pd tm cl) =
                Some (await fullscreen_requested
                            (call (requestFullscreen "hide") M2))).
  { cbn [run step pending]. rewrite N. reflexivity. }
  pose proof (settle_last fullscreen_requested (rejected e)
                (call (requestFullscreen "hide") M2)) as S3.
  change (pending (call (requestFullscreen "hide") M2))
    with (removeNth i pd) in S3.
  eexists. split.
  { cbn [pending].
    change ([settle i (fulfilled_stream stream); timeout;
             settle (length (removeNth i pd)) (rejected e)])
      with ([settle i (fulfilled_stream stream); timeout] ++
            [settle (length (removeNth i pd)) (rejected e)]).
    rewrite (run_app [settle i (fulfilled_stream stream); timeout]).
    rewrite S12. cbn [run]. rewrite S3. reflexivity. }
  repeat split.
  - simpl. rewrite <- !app_assoc. reflexivity.
  - intros t Hin. apply isLive_iff. simpl. apply in_app_iff. now left.
Qed.

(** [fullscreen_failure_is_not_fatal] on a concrete input. *)
Lemma fullscreen_failure_is_not_fatal_witness :
  exists m',
    run [settle 0 (fulfilled_stream (mkStream [1; 2])); timeout;
         settle (length (removeNth 0 (pending (startStream listed))))
                (rejected (mkError "Permissions check failed"))]
        (startStream listed) = Some m' /\
    calls m' =
      calls (startStream listed) ++
      [setTimeout 100; requestFullscreen "hide";
       console_error "Fullscreen failed"
                     (mkError "Permissions check failed")] /\
    currentStream m' = Some (mkStream [1; 2]) /\
    App.isStreaming (app m') = true /\
    (forall t, In t [1; 2] -> isLive m' t = true) /\
    pending m' = removeNth 0 (pending (startStream listed)) /\
    timers m' = timers (startStream listed).
Proof.
  apply (fullscreen_failure_is_not_fatal
           (startStream listed) 0 (mkStream [1; 2]) (mkVideo None true)
           (mkError "Permissions check failed")); reflexivity.
Defined.

Lemma settle_at_end k r m l :
  pending m = l ++ [k] ->
  step (settle (length l) r) m =
  resume k r (delivered r (mkMachine (app m) (browser m) l (timers m)
                                     (calls m))).
Proof.
  intros E. simpl. rewrite E, nth_error_snoc. unfold take.
  now rewrite E, removeNth_snoc.
Qed.

Lemma acquisitions_stopTracks stream m :
  acquisitions (stopTracks stream m) = acquisitions m.
Proof.
  unfold acquisitions. rewrite stopTracks_calls, filter_app, length_app.
  rewrite stops_are_not_acquisitions. simpl. lia.
Qed.

(** A whole session is a round trip: from any state the component can
    reach in which the start button is enabled, a start, the entry into
    full screen and the exit bring back the same state cells (same list,
    same selection, not streaming, nothing bound), leave no promise and no
    timer behind, and none of the acquired tracks running; exactly one
    stream was requested. *)
Theorem session_round_trip m stream video :
  reachable m ->
  startEnabled (app m) = true ->
  App.videoRef (app m) = Some video ->
  hasRequestFullscreen video = true ->
  exists m',
    run (session m stream) m = Some m' /\
    app m' = app m /\
    pending m' = pending m /\
    timers m' = timers m /\
    acquisitions m' = S (acquisitions m) /\
    (forall t, In t (getTracks stream) -> isLive m' t = false) /\
    (forall t, ~ In t (getTracks stream) -> isLive m' t = isLive m t).
Proof.
  intros R En V F.
  assert (En' := En). unfold startEnabled, controlsRendered in En'.
  apply andb_true_iff in En'. destruct En' as [En' Hd].
  apply andb_true_iff in En'. destruct En' as [Hs He].
  apply negb_true_iff in Hs.
  assert (Hne : App.devices (app m) <> []).
  { intros E. rewrite E in Hd. discriminate. }
  destruct (selected_is_listed m R Hne) as [G [v [a [Sg [_ [_ [Hv Ha]]]]]]].
  assert (Hsrc : srcObject video = None).
  { pose proof (reachable_consistent m R) as C.
    unfold consistent, currentStream in C. rewrite V, Hs in C.
    destruct (srcObject video); [|reflexivity].
    assert (false = true) by (apply C; discriminate). discriminate. }
  destruct m as [[dv sel str err vr] [w h fe lv] pd tm cl].
  simpl in Hs, He, V. subst str vr.
  destruct err; [discriminate|]. destruct video as [src hrf].
  simpl in F, Hsrc. subst src hrf. unfold session. cbn [pending].
  set (gum := getUserMedia (constraintsOf v a (mkBrowser w h fe lv))).
  set (M5 := mkMachine
               (App.mk dv sel true None
                       (Some (mkVideo (Some stream) true)))
               (mkBrowser w h true (getTracks stream ++ lv))
               pd tm
               (cl ++ [gum; setTimeout 100; requestFullscreen "hide"])).
  assert (S5 : run [click_start;
                    settle (length pd) (fulfilled_stream stream);
                    timeout; fullscreenchange true;
                    settle (length pd) fulfilled_undefined]
                   (mkMachine
                      (App.mk dv sel false None (Some (mkVideo None true)))
                      (mkBrowser w h fe lv) pd tm cl) = Some M5).
  { set (M0 := mkMachine
                 (App.mk dv sel false None (Some (mkVideo None true)))
                 (mkBrowser w h fe lv) pd tm cl) in *.
    assert (S1 : step click_start M0 =
                 Some (await startStream_acquired (call gum M0))).
    { cbn [step]. rewrite En. unfold startStream.
      change (selectedGroup (app M0) = Some G) in Sg.
      now rewrite Sg, Hv, Ha. }
    pose proof (settle_last startStream_acquired (fulfilled_stream stream)
                            (call gum M0)) as S2.
    set (M2 := mkMachine
                 (App.mk dv sel true None
                         (Some (mkVideo (Some stream) true)))
                 (mkBrowser w h fe (getTracks stream ++ lv))
                 pd tm ((cl ++ [gum]) ++ [setTimeout 100])).
    set (X4 := set_fullscreenElement true
                 (call (requestFullscreen "hide") M2)).
    assert (S3 : step timeout (add_timer M2) =
                 Some (await fullscreen_requested
                             (call (requestFullscreen "hide") M2)))
      by reflexivity.
    assert (S4 : step (fullscreenchange true)
                      (await fullscreen_requested
                             (call (requestFullscreen "hide") M2)) =
                 Some (await fullscreen_requested X4)) by reflexivity.
    pose proof (settle_last fullscreen_requested fulfilled_undefined X4)
      as S5.
    change (length (pending (call gum M0))) with (length pd) in S2.
    change (length (pending X4)) with (length pd) in S5.
    cbn [run]. rewrite S1, S2.
    change (resume startStream_acquired (fulfilled_stream stream)
              (delivered (fulfilled_stream stream) (call gum M0)))
      with (Some (add_timer M2)).
    cbv beta iota. rewrite S3, S4, S5. unfold M5, X4, M2.
    cbv [resume after_fullscreen delivered set_fullscreenElement
         with_browser call app browser pending timers calls screen_width
         screen_height live fullscreenElement].
    rewrite <- !app_assoc. reflexivity. }
  change ([click_start; settle (length pd) (fulfilled_stream stream);
           timeout; fullscreenchange true;
           settle (length pd) fulfilled_undefined; fullscreenchange false])
    with ([click_start; settle (length pd) (fulfilled_stream stream);
           timeout; fullscreenchange true;
           settle (length pd) fulfilled_undefined] ++
          [fullscreenchange false]).
  rewrite run_app, S5.
  set (M6 := setIsStreaming false (set_fullscreenElement false M5)).
  exists (set_srcObject None (stopTracks stream M6)).
  split; [reflexivity|].
  destruct (stopTracks_frame stream M6) as (Fa & Fp & Ft & _).
  split; [|split; [|split; [|split; [|split]]]].
  - simpl. rewrite Fa. reflexivity.
  - simpl. rewrite Fp. reflexivity.
  - simpl. rewrite Ft. reflexivity.
  - change (acquisitions (set_srcObject None (stopTracks stream M6)))
      with (acquisitions (stopTracks stream M6)).
    rewrite acquisitions_stopTracks. unfold acquisitions. simpl.
    rewrite filter_app, length_app. simpl. lia.
  - intros t Hin.
    change (isLive (set_srcObject None (stopTracks stream M6)) t)
      with (isLive (stopTracks stream M6) t).
    now apply stopTracks_stopped.
  - intros t Hn. apply eq_true_iff_eq.
    change (isLive (set_srcObject None (stopTracks stream M6)) t)
      with (isLive (stopTracks stream M6) t).
    rewrite !isLive_iff, stopTracks_live. simpl.
    rewrite in_app_iff. tauto.
Qed.

(** [session_round_trip] on a concrete input. *)
Lemma session_round_trip_witness :
  exists m',
    run (session listed (mkStream [1; 2])) listed = Some m' /\
    app m' = app listed /\
    pending m' = pending listed /\
    timers m' = timers listed /\
    acquisitions m' = S (acquisitions listed) /\
    (forall t, In t [1; 2] -> isLive m' t = false) /\
    (forall t, ~ In t [1; 2] -> isLive m' t = isLive listed t).
Proof.
  apply (session_round_trip listed (mkStream [1; 2]) (mkVideo None true)).
  - exact listed_reachable.
  - reflexivity.
  - reflexivity.
  - reflexivity.
Defined.
End Fullscreen.


(** ** Failed discovery *)

Section Failure.
Implicit Types (m : Machine).

Lemma handleFullscreenChange_quiet m :
  App.error (app (handleFullscreenChange m)) = App.error (app m) /\
  acquisitions (handleFullscreenChange m) = acquisitions m.
Proof.
  unfold handleFullscreenChange.
  destruct (negb (fullscreenElement (browser m))); [|tauto].
  cbv zeta.
  change (App.videoRef (app (setIsStreaming false m)))
    with (App.videoRef (app m)).
  destruct (App.videoRef (app m)) as [video|]; [|split; reflexivity].
  destruct (srcObject video) as [stream|]; [|split; reflexivity].
  destruct (stopTracks_frame stream (setIsStreaming false m)) as (A & _).
  split.
  - simpl. now rewrite A.
  - change (acquisitions (stopTracks stream (setIsStreaming false m)) =
            acquisitions m).
    now rewrite acquisitions_stopTracks.
Qed.

Lemma initDevices_group_failed l m :
  App.error (app m) = None ->
  App.devices (app m) = [] ->
  discoveryInFlight m = 0 ->
  failedForGood (initDevices_group l m).
Proof.
  intros He Hd HD. unfold failedForGood, initDevices_group.
  destruct (groupDevices l) as [[|g out]|e]; simpl;
    intros H; try congruence; now split.
Qed.

Lemma acquisitions_call c m :
  isGetUserMedia c = false -> acquisitions (call c m) = acquisitions m.
Proof.
  intros H. unfold acquisitions. simpl.
  rewrite filter_app, length_app. simpl. rewrite H. simpl. lia.
Qed.

Lemma step_failed ev m m' :
  wellFormed m -> failedForGood m -> step ev m = Some m' ->
  failedForGood m' /\
  (App.error (app m) <> None ->
   App.error (app m') = App.error (app m) /\
   acquisitions m' = acquisitions m).
Proof.
  intros W E Hstep. pose proof W as [W1 W2 W3 W4 W5 W6].
  destruct ev as [i r| | |value|element|]; simpl in Hstep.
  - destruct (nth_error (pending m) i) as [k|] eqn:N; [|discriminate].
    pose proof (filter_removeNth isDiscovery _ _ _ N) as CD.
    destruct (delivered_frame r (take i m)) as [Fa Fp].
    assert (Fc : acquisitions (delivered r (take i m)) = acquisitions m)
      by (destruct r; reflexivity).
    change (app (take i m)) with (app m) in Fa.
    change (pending (take i m)) with (removeNth i (pending m)) in Fp.
    remember (delivered r (take i m)) as m1 eqn:Hm1. clear Hm1.
    rewrite <- Fp in CD.
    fold (discoveryInFlight m) (discoveryInFlight m1) in CD.
    assert (Same : forall m2,
      App.error (app m2) = App.error (app m1) ->
      App.devices (app m2) = App.devices (app m1) ->
      discoveryInFlight m2 = discoveryInFlight m1 ->
      acquisitions m2 = acquisitions m1 ->
      isDiscovery k = false ->
      failedForGood m2 /\
      (App.error (app m) <> None ->
       App.error (app m2) = App.error (app m) /\
       acquisitions m2 = acquisitions m)).
    { intros m2 He Hd HD Ha Hk. rewrite Hk in CD. unfold failedForGood.
      rewrite He, Hd, HD, Ha, Fa, Fc. split; [|tauto].
      intros H. destruct (E H). split; [assumption | lia]. }
    assert (Disc : isDiscovery k = true ->
      App.error (app m1) = None /\ App.devices (app m1) = [] /\
      discoveryInFlight m1 = 0).
    { intros Hk. rewrite Hk in CD. rewrite Fa.
      assert (HD : discoveryInFlight m = 1) by lia.
      repeat split; [|now apply W3|lia].
      destruct (App.error (app m)) eqn:Er; [|reflexivity].
      destruct E as [_ E]; [congruence | lia]. }
    assert (Vac : forall m2,
      isDiscovery k = true ->
      failedForGood m2 ->
      failedForGood m2 /\
      (App.error (app m) <> None ->
       App.error (app m2) = App.error (app m) /\
       acquisitions m2 = acquisitions m)).
    { intros m2 Hk F2. split; [exact F2|]. intros H.
      destruct (Disc Hk) as [He _]. rewrite Fa in He. congruence. }
    destruct k, r; simpl in Hstep; try discriminate;
      try (destruct (Disc eq_refl) as (De & Dd & DD)).
    + destruct (someLabel l); simpl in Hstep; injection Hstep as <-;
        apply Vac; try reflexivity.
      * now apply initDevices_group_failed.
      * unfold failedForGood. simpl. rewrite De. congruence.
    + injection Hstep as <-. apply Vac; [reflexivity|].
      unfold failedForGood. simpl. now split.
    + injection Hstep as <-. apply Vac; [reflexivity|].
      destruct (stopTracks_frame s m1) as (Ga & _).
      unfold failedForGood. simpl. rewrite Ga, De. congruence.
    + injection Hstep as <-. apply Vac; [reflexivity|].
      unfold failedForGood. simpl. now split.
    + injection Hstep as <-. apply Vac; [reflexivity|].
      now apply initDevices_group_failed.
    + injection Hstep as <-. apply Vac; [reflexivity|].
      unfold failedForGood. simpl. now split.
    + destruct (App.videoRef (app m1)); injection Hstep as <-;
        apply Same; try reflexivity.
      unfold add_timer. simpl.
      change (acquisitions
                (call (setTimeout 100)
                      (setIsStreaming true (set_srcObject (Some s) m1))) =
              acquisitions m1).
      now rewrite acquisitions_call.
    + injection Hstep as <-. apply Same; try reflexivity.
      now apply acquisitions_call.
    + injection Hstep as <-. now apply Same.
    + injection Hstep as <-. apply Same; try reflexivity.
      now apply acquisitions_call.
  - destruct (timers m) as [|n]; [discriminate|].
    injection Hstep as <-. unfold failedForGood.
    unfold fullscreenTimer. simpl.
    destruct (App.videoRef (app m)) as [[src [|]]|]; simpl;
      unfold failedForGood, discoveryInFlight, acquisitions in *; simpl;
      rewrite ?filter_app, ?length_app; simpl;
      (split; [intros H; destruct (E H); split; [assumption|lia]
              | intros _; split; [reflexivity|lia]]).
  - destruct (startEnabled (app m)) eqn:En; [|discriminate].
    injection Hstep as <-.
    unfold startEnabled, controlsRendered in En.
    destruct (App.error (app m)) eqn:Er;
      [rewrite andb_false_r in En; discriminate|].
    destruct (startStream_frame m) as (A & _).
    unfold failedForGood.
    assert (Ee : App.error (app (startStream m)) = None).
    { unfold startStream. destruct (selectedGroup (app m)) as [G|];
        [|exact Er].
      destruct (DeviceGroup.video G), (DeviceGroup.audio G); exact Er. }
    rewrite Ee. split; congruence.
  - destruct (controlsRendered (app m)) eqn:Cr; [|discriminate].
    destruct (existsb _ _); [|discriminate].
    simpl in Hstep. injection Hstep as <-.
    unfold controlsRendered in Cr.
    destruct (App.error (app m)) eqn:Er;
      [rewrite andb_false_r in Cr; discriminate|].
    unfold failedForGood. simpl. rewrite Er. split; congruence.
  - injection Hstep as <-.
    destruct (handleFullscreenChange_quiet
                (set_fullscreenElement element m)) as [He Ha].
    destruct (handleFullscreenChange_frame
                (set_fullscreenElement element m)) as (A & _ & C & _).
    simpl in He, Ha, A, C. unfold failedForGood, discoveryInFlight.
    rewrite He, A, C.
    change (acquisitions (set_fullscreenElement element m))
      with (acquisitions m) in Ha.
    split; [exact E | intros _; split; [reflexivity | exact Ha]].
  - injection Hstep as <-. unfold failedForGood. simpl.
    split; [exact E|]. intros _. split; [reflexivity|].
    now apply acquisitions_call.
Qed.

Lemma reachable_failedForGood m : reachable m -> failedForGood m.
Proof.
  induction 1 as [w h fs | ev m m' R IH Hstep].
  - unfold failedForGood. simpl. congruence.
  - now destruct (step_failed ev m m' (reachable_wf m R) IH Hstep).
Qed.

(** A failed discovery is final.  Once the error text is set, whatever
    happens afterwards, the text stays, no group is ever listed, no stream
    is ever requested again, and neither the start button nor the
    selector can be used (lines 59-64 and 138-140: nothing clears
    [error]). *)
Theorem discovery_failure_is_final evs : forall m m' text,
  reachable m ->
  App.error (app m) = Some text ->
  run evs m = Some m' ->
  App.error (app m') = Some text /\
  App.devices (app m') = [] /\
  acquisitions m' = acquisitions m /\
  step click_start m' = None /\
  forall value, step (change_select value) m' = None.
Proof.
  induction evs as [|ev evs IH]; intros m m' text R He Hrun;
    simpl in Hrun.
  - injection Hrun as <-.
    destruct (reachable_failedForGood m R) as [Hd _]; [congruence|].
    repeat split; try assumption.
    + simpl. unfold startEnabled, controlsRendered. rewrite He.
      now rewrite andb_false_r.
    + intros value. simpl. unfold controlsRendered. rewrite He.
      now rewrite andb_false_r.
  - destruct (step ev m) as [m1|] eqn:S1; [|discriminate].
    destruct (step_failed ev m m1 (reachable_wf m R)
                          (reachable_failedForGood m R) S1) as [_ K].
    destruct K as [He1 Ha1]; [congruence|].
    assert (R1 : reachable m1) by (eapply reachable_step; eassumption).
    rewrite <- Ha1. apply (IH m1 m' text R1); [congruence | exact Hrun].
Qed.

Lemma failedDiscovery_reachable : reachable failedDiscovery.
Proof.
  apply (@reachable_step
           (settle 0 (rejected (mkError "Permission denied")))
           (mounted 1920 1080 true));
    [apply reachable_mounted | vm_compute; reflexivity].
Qed.

(** [discovery_failure_is_final] on a concrete input. *)
Lemma discovery_failure_is_final_witness :
  exists m',
    run [click_start; fullscreenchange false; pause] failedDiscovery
      = None /\
    run [fullscreenchange false; pause] failedDiscovery = Some m' /\
    App.error (app m') =
      Some "Error: Permission denied. Ensure HTTPS/localhost and grant permissions." /\
    App.devices (app m') = [] /\
    acquisitions m' = acquisitions failedDiscovery /\
    step click_start m' = None /\
    forall value, step (change_select value) m' = None.
Proof.
  eexists. split; [reflexivity|]. split; [reflexivity|].
  apply (discovery_failure_is_final
           [fullscreenchange false; pause] failedDiscovery).
  - exact failedDiscovery_reachable.
  - reflexivity.
  - reflexivity.
Defined.

(** Discovery can fail at each of its three awaits, and always ends the
    same way: the text of line 62 with the error's message, no group, no
    selection, nothing left in flight.  A rejected probe is not followed
    by a second enumeration; when the second enumeration is rejected the
    probe's tracks have already been stopped. *)
Theorem discovery_fails_at_any_await width height fs devs1 stream e :
  (exists m',
     run [settle 0 (rejected e)] (mounted width height fs) = Some m' /\
     App.error (app m') = Some (discoveryMessage e) /\
     App.devices (app m') = [] /\ App.selectedGroupId (app m') = "" /\
     pending m' = [] /\
     calls m' = [enumerateDevices]) /\
  ((forall d, In d devs1 -> MediaDeviceInfo.label d = "") ->
   (exists m',
      run [settle 0 (fulfilled_devices devs1); settle 0 (rejected e)]
          (mounted width height fs) = Some m' /\
      App.error (app m') = Some (discoveryMessage e) /\
      App.devices (app m') = [] /\ App.selectedGroupId (app m') = "" /\
      pending m' = [] /\
      calls m' = [enumerateDevices; getUserMedia probeConstraints]) /\
   (exists m',
      run [settle 0 (fulfilled_devices devs1);
           settle 0 (fulfilled_stream stream); settle 0 (rejected e)]
          (mounted width height fs) = Some m' /\
      App.error (app m') = Some (discoveryMessage e) /\
      App.devices (app m') = [] /\ App.selectedGroupId (app m') = "" /\
      pending m' = [] /\
      calls m' =
        [enumerateDevices; getUserMedia probeConstraints] ++
        map track_stop (getTracks stream) ++ [enumerateDevices] /\
      forall t, In t (getTracks stream) -> isLive m' t = false)).
Proof.
  split.
  - eexists. split; [reflexivity|]. repeat split.
  - intros H. apply someLabel_false in H.
    set (M1 := mkMachine
                 (App.mk [] "" false None (Some (mkVideo None fs)))
                 (mkBrowser width height false [])
                 [initDevices_probed] 0
                 [enumerateDevices; getUserMedia probeConstraints]).
    assert (S1 : step (settle 0 (fulfilled_devices devs1))
                      (mounted width height fs) = Some M1).
    { simpl. rewrite H. reflexivity. }
    split.
    + eexists. split.
      * cbn [run]. rewrite S1. reflexivity.
      * repeat split.
    + pose (D := delivered (fulfilled_stream stream) (take 0 M1)).
      pose (X := stopTracks stream D).
      assert (S2 : step (settle 0 (fulfilled_stream stream)) M1 =
                   Some (await initDevices_reenumerated
                               (call enumerateDevices X)))
        by reflexivity.
      destruct (stopTracks_frame stream D) as (Fa & Fp & _).
      pose proof (stopTracks_calls stream D) as Fc.
      pose proof (stopTracks_stopped stream D) as Fl.
      fold X in Fa, Fp, Fc, Fl.
      change (app D) with (app (mounted width height fs)) in Fa.
      change (pending D) with (@nil Continuation) in Fp.
      change (calls D)
        with [enumerateDevices; getUserMedia probeConstraints] in Fc.
      clearbody X. clear D.
      set (M2 := await initDevices_reenumerated
                       (call enumerateDevices X)) in *.
      assert (P2 : pending M2 = [initDevices_reenumerated]).
      { change (pending M2) with (pending X ++ [initDevices_reenumerated]).
        now rewrite Fp. }
      assert (S3 : step (settle 0 (rejected e)) M2 =
                   Some (initDevices_catch e (take 0 M2))).
      { rewrite (settle_only _ (rejected e) M2 P2). reflexivity. }
      exists (initDevices_catch e (take 0 M2)). split.
      { cbn [run]. rewrite S1, S2, S3. reflexivity. }
      change (app (initDevices_catch e (take 0 M2)))
        with (App.mk (App.devices (app X)) (App.selectedGroupId (app X))
                     (App.isStreaming (app X)) (Some (discoveryMessage e))
                     (App.videoRef (app X))).
      rewrite Fa. repeat split.
      * change (removeNth 0 (pending M2) = []). now rewrite P2.
      * change (calls X ++ [enumerateDevices] =
                [enumerateDevices; getUserMedia probeConstraints] ++
                map track_stop (getTracks stream) ++ [enumerateDevices]).
        rewrite Fc. now rewrite <- app_assoc.
      * intros t Hin. now apply Fl.
Qed.

(** [discovery_fails_at_any_await] on a concrete input. *)
Lemma discovery_fails_at_any_await_witness :
  exists m',
    run [settle 0 (fulfilled_devices
                     [camera "usb" ""; microphone "usb" ""]);
         settle 0 (rejected (mkError "Permission denied"))]
        (mounted 1920 1080 true) = Some m' /\
    App.error (app m') =
      Some (discoveryMessage (mkError "Permission denied")) /\
    App.devices (app m') = [] /\ App.selectedGroupId (app m') = "" /\
    pending m' = [] /\
    calls m' = [enumerateDevices; getUserMedia probeConstraints].
Proof.
  destruct (discovery_fails_at_any_await 1920 1080 true
              [camera "usb" ""; microphone "usb" ""]
              (mkStream [7; 8]) (mkError "Permission denied"))
    as [_ H].
  apply H. intros d [<- | [<- | []]]; reflexivity.
Defined.
End Failure.

(** ** Accounting of the calls *)

Section Accounting.
Implicit Types (m : Machine).

Lemma filter_stops (p : Call -> bool) (l : list MediaStreamTrack) :
  (forall t, p (track_stop t) = false) ->
  filter p (map track_stop l) = [].
Proof.
  intros H. induction l as [|t l IH]; [reflexivity|].
  simpl. now rewrite H.
Qed.

Lemma count_stopTracks (p : Call -> bool) stream m :
  (forall t, p (track_stop t) = false) ->
  length (filter p (calls (stopTracks stream m))) =
  length (filter p (calls m)).
Proof.
  intros H. rewrite stopTracks_calls, filter_app, length_app.
  rewrite (filter_stops p _ H). simpl. lia.
Qed.

Lemma handleFullscreenChange_counts (p : Call -> bool) m :
  (forall t, p (track_stop t) = false) ->
  length (filter p (calls (handleFullscreenChange m))) =
    length (filter p (calls m)) /\
  timers (handleFullscreenChange m) = timers m.
Proof.
  intros H. unfold handleFullscreenChange.
  destruct (negb (fullscreenElement (browser m))); [|tauto].
  cbv zeta.
  change (App.videoRef (app (setIsStreaming false m)))
    with (App.videoRef (app m)).
  destruct (App.videoRef (app m)) as [video|]; [|split; reflexivity].
  destruct (srcObject video) as [stream|]; [|split; reflexivity].
  destruct (stopTracks_frame stream (setIsStreaming false m))
    as (_ & _ & T & _).
  split.
  - change (length
              (filter p (calls (stopTracks stream
                                           (setIsStreaming false m)))) =
            length (filter p (calls m))).
    now rewrite count_stopTracks.
  - simpl. now rewrite T.
Qed.

Ltac tally :=
  unfold accounted, fullscreenRequests, scheduled, acquisitions,
    startsInFlight in *;
  simpl; rewrite ?filter_app, ?length_app; simpl; try lia.

Lemma step_accounted ev m m' :
  accounted m -> step ev m = Some m' -> accounted m'.
Proof.
  intros A Hstep.
  destruct ev as [i r| | |value|element|]; simpl in Hstep.
  - destruct (nth_error (pending m) i) as [k|] eqn:N; [|discriminate].
    pose proof (filter_removeNth
                  (Continuation_eqb startStream_acquired) _ _ _ N) as CS.
    assert (F : calls (delivered r (take i m)) = calls m /\
                timers (delivered r (take i m)) = timers m /\
                pending (delivered r (take i m)) =
                  removeNth i (pending m))
      by (destruct r; repeat split).
    destruct F as (Fc & Ft & Fp).
    destruct (delivered_frame r (take i m)) as [Fa _].
    remember (delivered r (take i m)) as m1 eqn:Hm1. clear Hm1.
    rewrite <- Fp in CS.
    assert (G : forall l, isDiscovery k = true ->
                accounted (initDevices_group l m1)).
    { intros l Hk.
      destruct (initDevices_group_frame l m1) as (Gp & _ & Gc & Gt & _).
      unfold accounted, fullscreenRequests, scheduled, acquisitions,
        startsInFlight in *.
      rewrite Gp, Gc, Gt, Fc, Ft.
      destruct k; simpl in Hk, CS; try discriminate; lia. }
    destruct k, r; simpl in Hstep, CS; try discriminate.
    + destruct (someLabel l); simpl in Hstep; injection Hstep as <-.
      * now apply G.
      * tally. rewrite Fc, Ft. lia.
    + injection Hstep as <-. tally. rewrite Fc, Ft. lia.
    + injection Hstep as <-.
      destruct (stopTracks_frame s m1) as (_ & Gp & Gt & _).
      unfold accounted, fullscreenRequests, scheduled, acquisitions,
        startsInFlight in *.
      simpl. rewrite !filter_app, !length_app, Gp, Gt.
      rewrite !count_stopTracks by reflexivity.
      rewrite Fc, Ft. simpl. lia.
    + injection Hstep as <-. tally. rewrite Fc, Ft. lia.
    + injection Hstep as <-. now apply G.
    + injection Hstep as <-. tally. rewrite Fc, Ft. lia.
    + destruct (App.videoRef (app m1)); injection Hstep as <-;
        tally; rewrite ?Fc, ?Ft; lia.
    + injection Hstep as <-. tally. rewrite Fc, Ft. lia.
    + injection Hstep as <-. tally. rewrite Fc, Ft. lia.
    + injection Hstep as <-. tally. rewrite Fc, Ft. lia.
  - destruct (timers m) as [|n] eqn:T; [discriminate|].
    injection Hstep as <-. unfold fullscreenTimer. simpl.
    destruct (App.videoRef (app m)) as [[src [|]]|]; tally.
  - destruct (startEnabled (app m)); [|discriminate].
    injection Hstep as <-. unfold startStream.
    destruct (selectedGroup (app m)) as [G|]; [|exact A].
    destruct (DeviceGroup.video G), (DeviceGroup.audio G);
      try exact A. tally.
  - destruct (controlsRendered (app m) && _); [|discriminate].
    injection Hstep as <-. exact A.
  - injection Hstep as <-.
    destruct (handleFullscreenChange_frame
                (set_fullscreenElement element m)) as (_ & _ & P & _).
    destruct (handleFullscreenChange_counts isRequestFullscreen
                (set_fullscreenElement element m)) as [C1 T];
      [reflexivity|].
    destruct (handleFullscreenChange_counts isSetTimeout
                (set_fullscreenElement element m)) as [C2 _];
      [reflexivity|].
    destruct (handleFullscreenChange_counts isGetUserMedia
                (set_fullscreenElement element m)) as [C3 _];
      [reflexivity|].
    unfold accounted, fullscreenRequests, scheduled, acquisitions,
      startsInFlight in *.
    rewrite C1, C2, C3, T, P. exact A.
  - injection Hstep as <-. tally.
Qed.

(** The component never asks for full screen on its own account: in
    every state it can reach, the full-screen requests made and the timers
    still waiting are covered by the timers scheduled, and the timers
    scheduled and the starts still in flight are covered by the streams
    requested.  So there is at most one full-screen request per acquired
    stream. *)
Theorem fullscreen_requests_are_accounted m :
  reachable m ->
  fullscreenRequests m + timers m <= scheduled m /\
  scheduled m + startsInFlight m <= acquisitions m.
Proof.
  induction 1 as [w h fs | ev m m' R IH Hstep].
  - unfold fullscreenRequests, scheduled, acquisitions, startsInFlight.
    simpl. lia.
  - exact (step_accounted ev m m' IH Hstep).
Qed.

Lemma streaming_reachable : reachable streaming.
Proof.
  apply (run_reachable watching (mounted 1920 1080 true));
    [apply reachable_mounted | vm_compute; reflexivity].
Qed.

(** [fullscreen_requests_are_accounted] on a concrete input. *)
Lemma fullscreen_requests_are_accounted_witness :
  fullscreenRequests streaming + timers streaming <= scheduled streaming /\
  scheduled streaming + startsInFlight streaming <= acquisitions streaming.
Proof.
  apply (fullscreen_requests_are_accounted streaming).
  exact streaming_reachable.
Defined.

(** In every state the component can be in, the view and the session
    agree: the sink holds a stream exactly when [isStreaming] is true (the
    sink is never half bound), the controls are hidden exactly then, a
    session that is not Idle has its group listed, and the selection
    names a listed group with both descriptors as soon as anything is
    listed. *)
Theorem view_agrees_with_session m :
  reachable m ->
  (App.isStreaming (app m) = true <-> currentStream m <> None) /\
  (sessionState m = Active -> controlsRendered (app m) = false) /\
  (sessionState m <> Idle -> App.devices (app m) <> []) /\
  (App.devices (app m) <> [] ->
   exists G video audio,
     selectedGroup (app m) = Some G /\
     DeviceGroup.video G = Some video /\
     DeviceGroup.audio G = Some audio).
Proof.
  intros R. split; [exact (reachable_consistent m R)|].
  split; [|split].
  - unfold sessionState, controlsRendered.
    destruct (App.isStreaming (app m)); [reflexivity|].
    destruct (Nat.eqb (startsInFlight m) 0); discriminate.
  - intros Hn Hd. apply Hn. destruct (reachable_wf m R) as [_ _ _ W4 _ _].
    destruct (W4 Hd) as [Hs Hi]. unfold sessionState.
    now rewrite Hs, Hi.
  - intros Hd.
    destruct (selected_is_listed m R Hd) as [G [v [a [Sg [_ [_ [Hv Ha]]]]]]].
    now exists G, v, a.
Qed.

(** [view_agrees_with_session] on a concrete input. *)
Lemma view_agrees_with_session_witness :
  (App.isStreaming (app streaming) = true <->
   currentStream streaming <> None) /\
  (sessionState streaming = Active ->
   controlsRendered (app streaming) = false) /\
  (sessionState streaming <> Idle -> App.devices (app streaming) <> []) /\
  (App.devices (app streaming) <> [] ->
   exists G video audio,
     selectedGroup (app streaming) = Some G /\
     DeviceGroup.video G = Some video /\
     DeviceGroup.audio G = Some audio).
Proof.
  apply (view_agrees_with_session streaming).
  exact streaming_reachable.
Defined.
End Accounting.
